(** * index-tts2: the voice registry and the synthesis orchestrator

    A shallow embedding of [app/services/voice_manager.py],
    [app/services/tts_service.py] and [app/utils/audio.py].

    Conventions of the embedding.
    - A Python [str] is a Rocq [string]; a character is read as the code
      point of its byte, so the strings covered are those over U+0000 to
      U+00FF.  [str.lower], [str.strip] and the character class of the
      slug pattern are written out for that range.
    - A [pathlib.Path] is held by its normalised text, and [resolve]
      is the identity: no symbolic links, no relative working directory.
    - The file system is a finite map from path text to file contents.
      Directories are implicit, a path exists when it names a file, and
      a write, a rename or an unlink of [pathlib] and [shutil] is one
      update of the map that does not fail on a path that is there.
      What the model and [sf.write] do to the disk is theirs to say.
    - A [float] is the rational number it stands for.
    - Exceptions are values of [exn]; a computation returns its outcome
      together with the world it leaves behind, so the effects that
      happened before a [raise] stay visible.
    - What lies outside the repository is a parameter: the clock,
      pydantic's datetime validator, the synthesis model, librosa and
      soundfile.  The calls that leave the orchestrator are recorded in
      a trace.
    - Calls are run one after the other; the locks of the two services
      are not modelled, nor are logging and environment variables. *)

From Stdlib Require Import Ascii String NArith QArith Qabs Qminmax Lqa.
From stdpp Require Import base tactics option list strings pretty gmap.

Open Scope string_scope.
Open Scope nat_scope.

(** ** Python strings *)

Module PyStr.

Definition code (c : ascii) : N := N_of_ascii c.

Definition between (lo hi : N) (c : ascii) : bool :=
  ((lo <=? code c) && (code c <=? hi))%N.

(** [str.isspace] per character: the white space of Unicode below
    U+0100. *)
Definition isspace (c : ascii) : bool :=
  between 9 13 c || between 28 32 c || (code c =? 133)%N || (code c =? 160)%N.

(** [str.lower] per character: A-Z, and the upper-case letters of the
    Latin-1 supplement (U+00C0 to U+00DE without the multiplication
    sign U+00D7), move up by 32. *)
Definition lower_char (c : ascii) : ascii :=
  if between 65 90 c || (between 192 222 c && negb (code c =? 215)%N)
  then ascii_of_N (code c + 32)
  else c.

#[global] Arguments isspace : simpl never.
#[global] Arguments lower_char : simpl never.

Fixpoint lower (s : string) : string :=
  match s with
  | EmptyString => EmptyString
  | String c s' => String (lower_char c) (lower s')
  end.

(** [s.lstrip(chars)], [s.rstrip(chars)], [s.strip(chars)] with the
    character set given as a predicate. *)
Fixpoint lstrip (p : ascii -> bool) (s : string) : string :=
  match s with
  | EmptyString => EmptyString
  | String c s' => if p c then lstrip p s' else s
  end.

Fixpoint rstrip (p : ascii -> bool) (s : string) : string :=
  match s with
  | EmptyString => EmptyString
  | String c s' =>
      match rstrip p s' with
      | EmptyString => if p c then EmptyString else String c EmptyString
      | r => String c r
      end
  end.

Definition strip (p : ascii -> bool) (s : string) : string :=
  rstrip p (lstrip p s).

Fixpoint all_chars (p : ascii -> bool) (s : string) : bool :=
  match s with
  | EmptyString => true
  | String c s' => p c && all_chars p s'
  end.

Fixpoint last_char (s : string) : option ascii :=
  match s with
  | EmptyString => None
  | String c EmptyString => Some c
  | String _ s' => last_char s'
  end.

Definition is_char (d : ascii) (c : ascii) : bool :=
  if decide (c = d) then true else false.

Definition startswith (pre s : string) : bool := String.prefix pre s.

(** "not s" for a string: only the empty string is falsy. *)
Definition falsy (s : string) : bool :=
  match s with EmptyString => true | _ => false end.

End PyStr.

(** ** The clock: [datetime.now(timezone.utc)] *)

Module Clock.

Record datetime := mkDatetime {
  year : N; month : N; day : N;
  hour : N; minute : N; second : N;
  microsecond : N
}.

(** ["%04d" % n], ["%02d" % n]: decimal digits, padded with zeros on
    the left up to [width]. *)
Fixpoint zeros (n : nat) : string :=
  match n with
  | O => EmptyString
  | S n' => String "0" (zeros n')
  end.

Definition zfill (width : nat) (s : string) : string :=
  zeros (width - String.length s) +:+ s.

Definition digits (width : nat) (n : N) : string := zfill width (pretty n).

(** [d.strftime('%Y%m%d%H%M%S')], the year written with four digits
    as it is for the years from 1000 on. *)
Definition strftime_compact (d : datetime) : string :=
  digits 4 (year d) +:+ digits 2 (month d) +:+ digits 2 (day d) +:+
  digits 2 (hour d) +:+ digits 2 (minute d) +:+ digits 2 (second d).

(** [str(d)] for an aware UTC datetime: the ISO form with a space
    separator, the microseconds only when they are not zero. *)
Definition datetime_str (d : datetime) : string :=
  digits 4 (year d) +:+ "-" +:+ digits 2 (month d) +:+ "-" +:+ digits 2 (day d) +:+ " " +:+
  digits 2 (hour d) +:+ ":" +:+ digits 2 (minute d) +:+ ":" +:+ digits 2 (second d) +:+
  (if (microsecond d =? 0)%N then "" else "." +:+ digits 6 (microsecond d)) +:+
  "+00:00".

(** The fields of a datetime object are in their calendar ranges. *)
Definition in_range (d : datetime) : Prop :=
  (1000 <= year d <= 9999 /\ month d <= 99 /\ day d <= 99 /\
   hour d <= 99 /\ minute d <= 99 /\ second d <= 99)%N.

End Clock.

(** ** The identifier slugger: [_SLUGIFY_RE] and [_slugify] *)

Module Slug.
Import PyStr Clock.

(** The class [[a-z0-9]]. *)
Definition is_slug_char (c : ascii) : bool :=
  between 97 122 c || between 48 57 c.

(** One position of the pattern [[^a-z0-9]+]: the negated class. *)
Definition outside (c : ascii) : bool := negb (is_slug_char c).

#[global] Arguments is_slug_char : simpl never.
#[global] Arguments outside : simpl never.

(** [_SLUGIFY_RE.sub(repl, s)]: the scan goes left to right; a match
    starts at the first character of the negated class and, the
    quantifier being greedy, takes every following character of the
    class; [in_match] tells that the scan is inside a match whose
    replacement is already written. *)
Fixpoint sub_scan (repl : string) (in_match : bool) (s : string) : string :=
  match s with
  | EmptyString => EmptyString
  | String c s' =>
      if outside c
      then (if in_match then sub_scan repl true s'
            else repl +:+ sub_scan repl true s')
      else String c (sub_scan repl false s')
  end.

Definition _SLUGIFY_RE_sub (repl : string) (s : string) : string :=
  sub_scan repl false s.

Definition dash : ascii := "-"%char.

(** *** The slugger as the specification words it *)

(** The maximal runs of a string: consecutive characters of one class
    ([true]: outside [[a-z0-9]]) grouped together. *)
Fixpoint maximal_runs (s : string) : list (bool * string) :=
  match s with
  | EmptyString => []
  | String c s' =>
      match maximal_runs s' with
      | (b, r) :: rest =>
          if Bool.eqb (outside c) b
          then (b, String c r) :: rest
          else (outside c, String c EmptyString) :: (b, r) :: rest
      | [] => [(outside c, String c EmptyString)]
      end
  end.

Definition replace_run (run : bool * string) : string :=
  if run.1 then "-" else run.2.

Fixpoint concat_str (l : list string) : string :=
  match l with
  | [] => EmptyString
  | s :: l' => s +:+ concat_str l'
  end.

(** What makes the list [runs] the maximal runs of a string: every
    run is not empty and of one class, and two runs in a row are of
    different classes. *)
Definition run_ok (run : bool * string) : Prop :=
  run.2 <> EmptyString /\
  all_chars (fun c => Bool.eqb (outside c) run.1) run.2 = true.

Fixpoint alternating (runs : list (bool * string)) : Prop :=
  match runs with
  | r1 :: ((r2 :: _) as rest) => r1.1 <> r2.1 /\ alternating rest
  | _ => True
  end.

(** The alphabet of a slug. *)
Definition slug_alphabet (c : ascii) : bool := is_slug_char c || is_char dash c.

Definition is_digit (c : ascii) : bool := between 48 57 c.

(** "Lower-cases input, replaces every maximal run of characters
    outside [a-z0-9] with a single -, trims leading/trailing -". *)
Definition spec_slug (value : string) : string :=
  strip (is_char dash) (concat_str (replace_run <$> maximal_runs (lower value))).

(** "If the result is empty, returns a fallback of the form
    voice-<UTC timestamp, second precision, compact numeric format>". *)
Definition spec_slugify (now : datetime) (value : string) : string :=
  match spec_slug value with
  | EmptyString => "voice-" +:+ strftime_compact now
  | s => s
  end.

End Slug.

(** ** Paths: the part of [pathlib] the services use *)

Module Paths.
Import PyStr.

(** [s.rpartition(sep)] without the separator: the text before and
    after the last [sep], when there is one. *)
Fixpoint rsplit (sep : ascii) (s : string) : option (string * string) :=
  match s with
  | EmptyString => None
  | String c s' =>
      match rsplit sep s' with
      | Some (a, b) => Some (String c a, b)
      | None => if decide (c = sep) then Some (EmptyString, s') else None
      end
  end.

Definition slash : ascii := "/"%char.
Definition dot : ascii := "."%char.

Definition is_absolute (p : string) : bool := startswith "/" p.

(** [d / p] *)
Definition joinpath (d p : string) : string :=
  if is_absolute p then p
  else if falsy p then d
  else d +:+ "/" +:+ p.

(** [s.split(sep)] *)
Fixpoint split (sep : ascii) (s : string) : list string :=
  match s with
  | EmptyString => [EmptyString]
  | String c s' =>
      if decide (c = sep) then EmptyString :: split sep s'
      else match split sep s' with
           | h :: t => String c h :: t
           | [] => [String c EmptyString]
           end
  end.

(** The components of a path: the text between the slashes, without
    the empty ones and the single dots. *)
Definition is_component (x : string) : bool :=
  negb (falsy x) && negb (String.eqb x ".").

Definition parts (p : string) : list string :=
  List.filter is_component (split slash p).

(** [p.name]: the last component, empty when there is none. *)
Definition name (p : string) : string := List.last (parts p) EmptyString.

(** [p.suffix]: from the last dot of the name on, unless that dot is
    the first or the last character of the name. *)
Definition suffix (p : string) : string :=
  match rsplit dot (name p) with
  | Some (stem, ext) =>
      if falsy stem || falsy ext then EmptyString else "." +:+ ext
  | None => EmptyString
  end.

Definition stem (p : string) : string :=
  match rsplit dot (name p) with
  | Some (st, ext) => if falsy st || falsy ext then name p else st
  | None => name p
  end.

(** [p.parent] *)
Definition parent (p : string) : string :=
  match rsplit slash p with
  | Some (dir, _) => if falsy dir then "/" else dir
  | None => "."
  end.

(** [p.with_suffix(suf)] *)
Definition with_suffix (p suf : string) : string :=
  match rsplit slash p with
  | Some (dir, _) => dir +:+ "/" +:+ stem p +:+ suf
  | None => stem p +:+ suf
  end.

Fixpoint drop_prefix (pre s : string) : option string :=
  match pre, s with
  | EmptyString, _ => Some s
  | String a pre', String b s' =>
      if decide (a = b) then drop_prefix pre' s' else None
  | String _ _, EmptyString => None
  end.

(** [p.relative_to(d)]; [None] stands for the [ValueError] of a path
    that is not below [d]. *)
Definition relative_to (p d : string) : option string :=
  if decide (p = d) then Some "."
  else drop_prefix (d +:+ "/") p.

(** A path text that is not empty and does not start at the root. *)
Definition relative_text (s : string) : Prop :=
  exists c r, s = String c r /\ c <> slash.

End Paths.

(** ** JSON values, as [json.loads] returns them *)

Module Json.

#[local] Unset Elimination Schemes.
Inductive json :=
| JNull
| JBool (b : bool)
| JNum (z : Z)    (* a number; no field of a voice is one *)
| JStr (s : string)
| JArr (items : list json)
| JObj (members : list (string * json)).
#[local] Set Elimination Schemes.

(** [d.get(key)] on the dict of an object; of two members with one
    key the later one is the value. *)
Fixpoint get (key : string) (members : list (string * json)) : option json :=
  match members with
  | [] => None
  | (k, v) :: rest =>
      match get key rest with
      | Some v' => Some v'
      | None => if decide (k = key) then Some v else None
      end
  end.

Definition as_str (j : json) : option string :=
  match j with JStr s => Some s | _ => None end.

End Json.

(** ** [app/models.py] and [app/config.py] *)

Module Voice.
Record t := mk {
  id : string;
  name : string;
  path : string;
  created_at : Clock.datetime
}.
End Voice.

Module GenerateRequest.
Record t := mk {
  text : string;
  voice_id : option string;
  speed : Q;
  pitch : Q
}.
End GenerateRequest.

Module GenerateResponse.
Record t := mk {
  voice_id : string;
  audio_path : string;
  audio_url : string
}.
End GenerateResponse.

Module UploadFile.
Record t := mk {
  filename : option string;
  file : string
}.
End UploadFile.

Module Settings.
Record t := mk {
  model_dir : string;
  config_path : string;
  voices_dir : string;
  output_dir : string;
  metadata_path : string;
  default_voice_name : string;
  default_voice_id : string;
  default_voice_source : option string;
  cache_dir : string;
  modelscope_cache_dir : string
}.

(** [Settings()] *)
Definition defaults : t := {|
  model_dir := "/app/models";
  config_path := "/app/models/config.yaml";
  voices_dir := "/app/voices";
  output_dir := "/app/output";
  metadata_path := "/app/voices/voices.json";
  default_voice_name := "Default";
  default_voice_id := "default";
  default_voice_source := Some "examples/voice_01.wav";
  cache_dir := "/app/models/hf_cache";
  modelscope_cache_dir := "/app/models/modelscope_cache"
|}.
End Settings.

(** ** Exceptions, the world and the monad of effects *)

Module Eff.
Import Json Clock.

Inductive exn :=
| HTTPException (status_code : nat) (detail : string)
| JSONDecodeError
| AttributeError
| TypeError
| ValueError (msg : string)
| FileNotFoundError (p : string)
| LibraryError (msg : string).

(** [str(exc)] *)
Definition exn_str (e : exn) : string :=
  match e with
  | HTTPException _ detail => detail
  | JSONDecodeError => "Expecting value"
  | AttributeError => "object has no attribute 'get'"
  | TypeError => "object is not iterable"
  | ValueError msg => msg
  | FileNotFoundError p => p
  | LibraryError msg => msg
  end.

Inductive result (A : Type) :=
| Ok (a : A)
| Raise (e : exn).
Arguments Ok {A} a.
Arguments Raise {A} e.

(** What a file holds: audio or other bytes, or the text of a JSON
    document, kept as the value [json.loads] reads from it. *)
Inductive content :=
| Raw (bytes : string)
| Doc (j : json).

(** The handle of a loaded synthesis model, with the two attributes
    the service reads from it by [getattr]. *)
Record Model := mkModel {
  device : option string;
  model_version : option string
}.

(** Calls that leave the orchestrator, in the order they are made. *)
Inductive event :=
| CallGetVoice (voice_id : option string)
| CallAbsoluteVoicePath (voice : Voice.t)
| CallImport
| CallConstruct
| CallInfer (spk_audio_prompt text output_path : string)
| CallPostProcess (source destination : string) (speed pitch : Q).

Record World := mkWorld {
  files : gmap string content;       (* the disk *)
  ticks : nat;                       (* readings of the clock so far *)
  _voices : gmap string Voice.t;     (* VoiceManager._voices *)
  _model : option Model;             (* TTSService._model *)
  _model_version : option string;    (* TTSService._model_version *)
  _device : option string;           (* TTSService._device *)
  trace : list event                 (* calls made so far, latest last *)
}.

Definition set_files (f : gmap string content -> gmap string content) (w : World) : World :=
  mkWorld (f (files w)) (ticks w) (_voices w) (_model w) (_model_version w) (_device w) (trace w).
Definition set_ticks (f : nat -> nat) (w : World) : World :=
  mkWorld (files w) (f (ticks w)) (_voices w) (_model w) (_model_version w) (_device w) (trace w).
Definition set_voices (f : gmap string Voice.t -> gmap string Voice.t) (w : World) : World :=
  mkWorld (files w) (ticks w) (f (_voices w)) (_model w) (_model_version w) (_device w) (trace w).
Definition set_model (m : Model) (w : World) : World :=
  mkWorld (files w) (ticks w) (_voices w) (Some m) (model_version m) (device m) (trace w).
Definition set_trace (f : list event -> list event) (w : World) : World :=
  mkWorld (files w) (ticks w) (_voices w) (_model w) (_model_version w) (_device w) (f (trace w)).

(** A computation: from a world to an outcome and the world after. *)
Definition M (A : Type) : Type := World -> result A * World.

#[global] Instance M_ret : MRet M := fun A a w => (Ok a, w).
#[global] Instance M_bind : MBind M := fun A B f m w =>
  match m w with
  | (Ok a, w') => f a w'
  | (Raise e, w') => (Raise e, w')
  end.

Definition raise {A} (e : exn) : M A := fun w => (Raise e, w).
Definition gets {A} (f : World -> A) : M A := fun w => (Ok (f w), w).
Definition modify (f : World -> World) : M unit := fun w => (Ok tt, f w).
Definition lift {A} (r : result A) : M A := fun w => (r, w).

(** [try: body / except Exception as exc: handler(exc)] *)
Definition try_except {A} (body : M A) (handler : exn -> M A) : M A := fun w =>
  match body w with
  | (Ok a, w') => (Ok a, w')
  | (Raise e, w') => handler e w'
  end.

(** [try: body / finally: cleanup]: the cleanup runs on both exits; an
    exception of the cleanup replaces the outcome of the body. *)
Definition try_finally {A} (body : M A) (cleanup : M unit) : M A := fun w =>
  match body w with
  | (r, w') =>
      match cleanup w' with
      | (Ok _, w'') => (r, w'')
      | (Raise e, w'') => (Raise e, w'')
      end
  end.

(** A traced call: the event is recorded, then the callee runs. *)
Definition call {A} (ev : event) (callee : M A) : M A :=
  _ ← modify (set_trace (fun t => (t ++ [ev])%list)); callee.

(** *** The disk *)

Definition exists_ (p : string) : M bool :=
  gets (fun w => bool_decide (is_Some (files w !! p))).

Definition read (p : string) : M content := fun w =>
  match files w !! p with
  | Some c => (Ok c, w)
  | None => (Raise (FileNotFoundError p), w)
  end.

Definition write (p : string) (c : content) : M unit :=
  modify (set_files (insert p c)).

(** [Path(src).replace(dst)] *)
Definition replace (src dst : string) : M unit := fun w =>
  match files w !! src with
  | Some c => (Ok tt, set_files (fun fs => <[dst := c]> (delete src fs)) w)
  | None => (Raise (FileNotFoundError src), w)
  end.

(** [Path(p).unlink(missing_ok=True)] *)
Definition unlink_missing_ok (p : string) : M unit :=
  modify (set_files (delete p)).

(** [shutil.copy2(src, dst)] *)
Definition copy2 (src dst : string) : M unit :=
  c ← read src; write dst c.

(** [p.mkdir(parents=True, exist_ok=True)]: directories are implicit. *)
Definition mkdir (p : string) : M unit := mret tt.

(** *** What lies outside the repository *)

(** The clock and the datetime validator of pydantic. *)
Class Platform := {
  clock : nat -> datetime;
  validate_datetime : json -> option datetime
}.

(** [indextts.infer_v2]: whether the n-th import fails and with what
    message, what the n-th call of the constructor gives, and what
    [infer] returns and does to the disk. *)
Class Synthesizer := {
  import_IndexTTS2 : nat -> option string;
  IndexTTS2 : nat -> Settings.t -> result Model;
  infer : Model -> string -> string -> string ->
          gmap string content -> result (option string) * gmap string content
}.

(** [librosa] and [soundfile]: what [librosa.load] decodes from a file,
    the two effects, and [sf.write] with the subtype PCM_16, which is
    given the samples, the rate and what its file holds, and says how it
    ends and what the file holds then ([None] for no file). *)
Class AudioLib := {
  librosa_load : content -> result (list Z * N);
  time_stretch : list Z -> Q -> result (list Z);
  pitch_shift : list Z -> N -> Q -> result (list Z);
  sf_write : list Z -> N -> option content -> result unit * option content
}.

Definition datetime_now `{Platform} : M datetime := fun w =>
  (Ok (clock (ticks w)), set_ticks S w).

End Eff.

(** ** [app/services/voice_manager.py] *)

Module VoiceManager.
Import PyStr Clock Slug Paths Json Eff.

(** The constructor of [Voice] on the members of an item taken as
    keywords: the item has to be an object whose [id], [name]
    and [path] are strings and whose [created_at] the datetime
    validator accepts; other members are ignored.  [None] stands for
    the exception the constructor raises. *)
Definition Voice_validate `{Platform} (item : json) : option Voice.t :=
  match item with
  | JObj kwargs =>
      i ← get "id" kwargs ≫= as_str;
      n ← get "name" kwargs ≫= as_str;
      p ← get "path" kwargs ≫= as_str;
      c ← get "created_at" kwargs ≫= validate_datetime;
      Some (Voice.mk i n p c)
  | _ => None
  end.

(** [voice.model_dump()] as [json.dumps(..., default=str)] writes it. *)
Definition model_dump (voice : Voice.t) : json :=
  JObj [("id", JStr (Voice.id voice));
        ("name", JStr (Voice.name voice));
        ("path", JStr (Voice.path voice));
        ("created_at", JStr (datetime_str (Voice.created_at voice)))].

Definition json_loads (c : content) : result json :=
  match c with
  | Doc j => Ok j
  | Raw _ => Raise JSONDecodeError
  end.

Fixpoint chars (s : string) : list string :=
  match s with
  | EmptyString => []
  | String c s' => String c EmptyString :: chars s'
  end.

(** What [for item in data.get("voices", [])] runs over. *)
Definition voices_items (data : json) : result (list json) :=
  match data with
  | JObj members =>
      match get "voices" members with
      | None => Ok []
      | Some (JArr items) => Ok items
      | Some (JObj inner) => Ok (JStr <$> inner.*1)
      | Some (JStr s) => Ok (JStr <$> chars s)
      | Some _ => Raise TypeError
      end
  | _ => Raise AttributeError
  end.

(** [list(self._voices.values())] *)
Definition values (voices : gmap string Voice.t) : list Voice.t :=
  (map_to_list voices).*2.

(** The loop of [add_voice]; [fuel] bounds the number of tests of the
    loop condition. *)
Fixpoint resolve_loop (voices : gmap string Voice.t) (slug : string)
    (fuel counter : nat) (candidate : string) : option string :=
  match fuel with
  | O => None
  | S fuel' =>
      if bool_decide (is_Some (voices !! candidate))
      then resolve_loop voices slug fuel' (S counter) (slug +:+ "-" +:+ pretty (S counter))
      else Some candidate
  end.

(** [{"voices": [voice.model_dump() for voice in self._voices.values()]}] *)
Definition payload_of (voices : gmap string Voice.t) : json :=
  JObj [("voices", JArr (model_dump <$> values voices))].

(** The candidates in the words of the specification: the slug itself,
    then the slug with [-2], [-3], ... appended. *)
Definition candidate (slug : string) (k : nat) : string :=
  if decide (k <= 1) then slug else slug +:+ "-" +:+ pretty k.

(** [k] is the first candidate that is free in [voices]. *)
Definition first_free (voices : gmap string Voice.t) (slug : string) (k : nat) : Prop :=
  1 <= k /\
  voices !! candidate slug k = None /\
  forall j, 1 <= j < k -> is_Some (voices !! candidate slug j).

(** Each key is the [id] of the voice stored under it. *)
Definition key_consistent (voices : gmap string Voice.t) : Prop :=
  forall k v, voices !! k = Some v -> Voice.id v = k.



Section WithSettings.
Context `{Platform} (settings : Settings.t).

(** The backing file of a voice is on the disk [fs]. *)
Definition backed (fs : gmap string content) (voice : Voice.t) : Prop :=
  is_Some (fs !! joinpath (Settings.voices_dir settings) (Voice.path voice)).

(** [settings.ensure_directories()] *)
Definition ensure_directories : M unit :=
  _ ← mkdir (Settings.model_dir settings);
  _ ← mkdir (Settings.voices_dir settings);
  _ ← mkdir (Settings.output_dir settings);
  _ ← mkdir (Settings.cache_dir settings);
  _ ← mkdir (Settings.modelscope_cache_dir settings);
  mkdir (parent (Settings.metadata_path settings)).

Definition load_step (fs : gmap string content)
    (voices : gmap string Voice.t) (item : json) : gmap string Voice.t :=
  match Voice_validate item with
  | None => voices
  | Some voice =>
      let voice_path := joinpath (Settings.voices_dir settings) (Voice.path voice) in
      if bool_decide (is_Some (fs !! voice_path))
      then <[Voice.id voice := voice]> voices
      else voices
  end.

Definition _load : M unit :=
  present ← exists_ (Settings.metadata_path settings);
  if negb present then modify (set_voices (fun _ => ∅))
  else
    c ← read (Settings.metadata_path settings);
    data ← lift (json_loads c);
    items ← lift (voices_items data);
    fs ← gets files;
    modify (set_voices (fun _ => foldl (load_step fs) ∅ items)).

Definition _save : M unit :=
  voices ← gets _voices;
  let payload := payload_of voices in
  let tmp_path := with_suffix (Settings.metadata_path settings) ".tmp" in
  _ ← write tmp_path (Doc payload);
  replace tmp_path (Settings.metadata_path settings).

(** The disk after [_save] has written the registry [voices]. *)
Definition saved_files (voices : gmap string Voice.t)
    (fs : gmap string content) : gmap string content :=
  let tmp_path := with_suffix (Settings.metadata_path settings) ".tmp" in
  <[Settings.metadata_path settings := Doc (payload_of voices)]>
    (delete tmp_path (<[tmp_path := Doc (payload_of voices)]> fs)).

Definition _seed_default_voice : M unit :=
  match Settings.default_voice_source settings with
  | None => mret tt
  | Some source_path =>
      present ← exists_ source_path;
      if negb present then mret tt
      else
        let dest_dir := joinpath (Settings.voices_dir settings)
                                 (Settings.default_voice_id settings) in
        _ ← mkdir dest_dir;
        let dest_file := joinpath dest_dir (name source_path) in
        _ ← copy2 source_path dest_file;
        match relative_to dest_file (Settings.voices_dir settings) with
        | None => raise (ValueError "is not in the subpath of")
        | Some rel =>
            now ← datetime_now;
            _ ← modify (set_voices (insert (Settings.default_voice_id settings)
                   (Voice.mk (Settings.default_voice_id settings)
                             (Settings.default_voice_name settings) rel now)));
            _save
        end
  end.

Definition bootstrap : M unit :=
  _ ← ensure_directories;
  _ ← _load;
  voices ← gets _voices;
  if bool_decide (voices = ∅) then _seed_default_voice else mret tt.

(** [VoiceManager(settings)] *)
Definition __init__ : M unit :=
  _ ← modify (set_voices (fun _ => ∅));
  bootstrap.

Definition list_voices : M (list Voice.t) :=
  gets (fun w => values (_voices w)).

Definition get_voice (voice_id : option string) : M Voice.t :=
  let voice_id := default (Settings.default_voice_id settings) voice_id in
  voices ← gets _voices;
  match voices !! voice_id with
  | None => raise (HTTPException 404 "Voice not found")
  | Some voice => mret voice
  end.

Definition register_voice (voice_id name : string) (file_path : string) : M Voice.t :=
  match relative_to file_path (Settings.voices_dir settings) with
  | None => raise (ValueError "is not in the subpath of")
  | Some rel_path =>
      now ← datetime_now;
      let voice := Voice.mk voice_id name rel_path now in
      _ ← modify (set_voices (insert (Voice.id voice) voice));
      _ ← _save;
      mret voice
  end.

Definition _resolve_target (voice_id filename : string) : M string :=
  let target_dir := joinpath (Settings.voices_dir settings) voice_id in
  _ ← mkdir target_dir;
  mret (joinpath target_dir filename).

Definition _slugify (value : string) : M string :=
  let slug := strip (is_char dash) (_SLUGIFY_RE_sub "-" (lower value)) in
  if falsy slug
  then now ← datetime_now; mret ("voice-" +:+ strftime_compact now)
  else mret slug.

(** The exception that stands for a run of [resolve_loop] that used
    up its fuel; [add_voice_resolves] shows that no run does. *)
Definition out_of_fuel : exn := LibraryError "out of fuel".

(** [f"prompt{suffix}"] with
    [suffix = Path(upload.filename or "voice.wav").suffix or ".wav"] *)
Definition prompt_filename (upload : UploadFile.t) : string :=
  let upload_name := match UploadFile.filename upload with
                     | Some fn => if falsy fn then "voice.wav" else fn
                     | None => "voice.wav"
                     end in
  let suffix := if falsy (suffix upload_name) then ".wav" else suffix upload_name in
  "prompt" +:+ suffix.

Definition add_voice (upload : UploadFile.t) (voice_name : string) : M Voice.t :=
  if falsy (strip isspace voice_name)
  then raise (HTTPException 400 "voice_name must not be empty")
  else
    slug ← _slugify voice_name;
    voices ← gets _voices;
    match resolve_loop voices slug (S (size voices)) 1 slug with
    | None => raise out_of_fuel
    | Some voice_id =>
        let filename := prompt_filename upload in
        target_file ← _resolve_target voice_id filename;
        _ ← write target_file (Raw (UploadFile.file upload));
        register_voice voice_id (strip isspace voice_name) target_file
    end.

Definition absolute_voice_path (voice : Voice.t) : M string :=
  let path := joinpath (Settings.voices_dir settings) (Voice.path voice) in
  present ← exists_ path;
  if negb present then raise (HTTPException 404 "Voice prompt file missing")
  else mret path.

End WithSettings.
End VoiceManager.

(** ** [app/utils/audio.py] *)

Module Audio.
Import Eff.
#[local] Open Scope Q_scope.

(** [math.isclose(a, b, rel_tol=..., abs_tol=...)] on exact rationals:
    [abs(a-b) <= max(rel_tol * max(abs(a), abs(b)), abs_tol)]. *)
Definition isclose (a b rel_tol abs_tol : Q) : bool :=
  Qle_bool (Qabs (a - b))
           (Qmax (rel_tol * Qmax (Qabs a) (Qabs b)) abs_tol).

Definition default_rel_tol : Q := 1 # 1000000000.

Section WithLibraries.
Context `{AudioLib}.

(** [sf.write(destination, y.astype(np.float32), sr, subtype="PCM_16")] *)
Definition soundfile_write (destination : string) (y : list Z) (sr : N) : M unit :=
  fun w =>
    match sf_write y sr (files w !! destination) with
    | (r, after) => (r, set_files (partial_alter (fun _ => after) destination) w)
    end.


Definition apply_speed_and_pitch (source destination : string)
    (speed pitch : Q) : M (string * N) :=
  c ← read source;
  '(y, sr) ← lift (librosa_load c);
  if bool_decide (y = [])
  then raise (ValueError "Audio prompt is empty.")
  else
    y ← (if negb (isclose speed 1 (1 # 1000) 0)
         then lift (time_stretch y speed) else mret y);
    y ← (if negb (isclose pitch 0 default_rel_tol (1 # 1000))
         then lift (pitch_shift y sr pitch) else mret y);
    _ ← soundfile_write destination y sr;
    mret (destination, sr).

End WithLibraries.
End Audio.

(** ** [app/services/tts_service.py] *)

Module TTSService.
Import PyStr Paths Eff Audio.

(** [abs(speed - 1.0) > 1e-3 or abs(pitch) > 1e-3] *)
Definition beyond_tolerance (speed pitch : Q) : bool :=
  negb (Qle_bool (Qabs (speed - 1)) (1 # 1000)) ||
  negb (Qle_bool (Qabs pitch) (1 # 1000)).

Definition raw_name (unique_id : string) : string := unique_id +:+ "_raw.wav".
Definition final_name (unique_id : string) : string := unique_id +:+ ".wav".

(** How often the constructor of the model was called. *)
Definition is_construct (ev : event) : bool :=
  match ev with CallConstruct => true | _ => false end.

Definition is_import (ev : event) : bool :=
  match ev with CallImport => true | _ => false end.

Definition constructions (t : list event) : nat :=
  length (List.filter is_construct t).

Definition imports (t : list event) : nat :=
  length (List.filter is_import t).

Section WithCollaborators.
Context `{Platform} `{Synthesizer} `{AudioLib} (settings : Settings.t).

(** The body of [ensure_model_loaded] once both tests have found
    [self._model] unset. *)
Definition load_model : M unit :=
  n ← gets (fun w => imports (trace w));
  _ ← call CallImport (mret tt);
  match import_IndexTTS2 n with
  | Some exc =>
      raise (HTTPException 500 ("Failed to import IndexTTS2: " +:+ exc))
  | None =>
      _ ← VoiceManager.ensure_directories settings;
      k ← gets (fun w => constructions (trace w));
      model ← call CallConstruct (lift (IndexTTS2 k settings));
      modify (set_model model)
  end.

Definition ensure_model_loaded : M unit :=
  m ← gets _model;
  match m with
  | Some _ => mret tt
  | None =>
      (* with self._lock: *)
      m ← gets _model;
      match m with
      | Some _ => mret tt
      | None => load_model
      end
  end.

Definition is_model_loaded : M bool :=
  gets (fun w => bool_decide (is_Some (_model w))).

Definition call_infer (model : Model) (spk_audio_prompt text output_path : string)
    : M (option string) :=
  call (CallInfer spk_audio_prompt text output_path)
    (fun w =>
       match infer model spk_audio_prompt text output_path (files w) with
       | (r, fs) => (r, set_files (fun _ => fs) w)
       end).

(** [output_dir / f"{unique_id}_raw.wav"] and
    [output_dir / f"{unique_id}.wav"] *)
Definition raw_output (unique_id : string) : string :=
  joinpath (Settings.output_dir settings) (raw_name unique_id).

Definition final_output (unique_id : string) : string :=
  joinpath (Settings.output_dir settings) (final_name unique_id).

(** [generate]; [unique_id] is the value of [uuid.uuid4().hex] in
    this call. *)
Definition generate (unique_id : string) (payload : GenerateRequest.t)
    : M GenerateResponse.t :=
  let text := GenerateRequest.text payload in
  if falsy text || falsy (strip isspace text)
  then raise (HTTPException 400 "text must not be empty")
  else
    voice ← call (CallGetVoice (GenerateRequest.voice_id payload))
              (VoiceManager.get_voice settings (GenerateRequest.voice_id payload));
    voice_path ← call (CallAbsoluteVoicePath voice)
                   (VoiceManager.absolute_voice_path settings voice);
    _ ← ensure_model_loaded;
    m ← gets _model;
    match m with
    | None => raise (HTTPException 500 "Model failed to load")
    | Some model =>
        let output_dir := Settings.output_dir settings in
        _ ← mkdir output_dir;
        let raw_output := joinpath output_dir (raw_name unique_id) in
        let final_output := joinpath output_dir (final_name unique_id) in
        generated_path ←
          try_except (call_infer model voice_path text raw_output)
            (fun exc => raise (HTTPException 500 ("Inference failed: " +:+ exn_str exc)));
        let missing := raise (HTTPException 500 "Model did not return a valid audio path") in
        match generated_path with
        | None => missing
        | Some generated_path =>
            present ← (if falsy generated_path then mret false
                       else exists_ generated_path);
            if negb present then missing
            else
              let speed := GenerateRequest.speed payload in
              let pitch := GenerateRequest.pitch payload in
              _ ← (if beyond_tolerance speed pitch
                   then
                     try_finally
                       (_ ← call (CallPostProcess generated_path final_output speed pitch)
                              (apply_speed_and_pitch generated_path final_output speed pitch);
                        mret tt)
                       (unlink_missing_ok generated_path)
                   else replace generated_path final_output);
              match relative_to final_output output_dir with
              | None => raise (ValueError "is not in the subpath of")
              | Some rel => mret (GenerateResponse.mk (Voice.id voice) rel "")
              end
        end
    end.

(** The last steps of [generate] (lines 106 to 120), for a generated
    path that is on the disk. *)
Definition generate_delivery (unique_id : string) (payload : GenerateRequest.t)
    (voice : Voice.t) (generated_path : string) : M GenerateResponse.t :=
  let output_dir := Settings.output_dir settings in
  let final_output := joinpath output_dir (final_name unique_id) in
  let speed := GenerateRequest.speed payload in
  let pitch := GenerateRequest.pitch payload in
  _ ← (if beyond_tolerance speed pitch
       then
         try_finally
           (_ ← call (CallPostProcess generated_path final_output speed pitch)
                  (apply_speed_and_pitch generated_path final_output speed pitch);
            mret tt)
           (unlink_missing_ok generated_path)
       else replace generated_path final_output);
  match relative_to final_output output_dir with
  | None => raise (ValueError "is not in the subpath of")
  | Some rel => mret (GenerateResponse.mk (Voice.id voice) rel "")
  end.

(** The steps of [generate] from the creation of the output directory
    on (lines 86 to 120), for a voice, its prompt and a loaded model. *)
Definition generate_synthesis (unique_id : string) (payload : GenerateRequest.t)
    (voice : Voice.t) (voice_path : string) (model : Model) : M GenerateResponse.t :=
  let text := GenerateRequest.text payload in
  let output_dir := Settings.output_dir settings in
  _ ← mkdir output_dir;
  let raw_output := joinpath output_dir (raw_name unique_id) in
  generated_path ←
    try_except (call_infer model voice_path text raw_output)
      (fun exc => raise (HTTPException 500 ("Inference failed: " +:+ exn_str exc)));
  let missing := raise (HTTPException 500 "Model did not return a valid audio path") in
  match generated_path with
  | None => missing
  | Some generated_path =>
      present ← (if falsy generated_path then mret false
                 else exists_ generated_path);
      if negb present then missing
      else generate_delivery unique_id payload voice generated_path
  end.

End WithCollaborators.


(** The model writes to the output path it is given and to no other
    path. *)
Definition confined `{Synthesizer} : Prop :=
  forall model prompt text output_path fs q,
    q <> output_path ->
    (infer model prompt text output_path fs).2 !! q = fs !! q.

(** The model returns the output path it is given, when it returns a
    path. *)
Definition returns_output_path `{Synthesizer} : Prop :=
  forall model prompt text output_path fs generated_path,
    (infer model prompt text output_path fs).1 = Ok (Some generated_path) ->
    generated_path = output_path.

End TTSService.

(** ** The process: what can happen to a world *)

Module Process.
Import Eff.

(** [hoare P m Q]: run in a world where [P] holds, [m] ends, returning
    or raising, with an outcome and a world that [Q] holds of. *)
Definition hoare {A} (P : World -> Prop) (m : M A)
    (Q : result A -> World -> Prop) : Prop :=
  forall w, P w -> Q (m w).1 (m w).2.

(** [respects R m]: the world after [m] is related by [R] to the world
    before, whatever the outcome. *)
Definition respects (R : World -> World -> Prop) {A} (m : M A) : Prop :=
  forall w, R w (m w).2.

(** The registry in memory is the same. *)
Definition same_voices (w w' : World) : Prop := _voices w' = _voices w.

(** The disk is the same. *)
Definition same_files (w w' : World) : Prop := files w' = files w.

(** The trace is the same. *)
Definition same_trace (w w' : World) : Prop := trace w' = trace w.

(** The trace has grown by events that [quiet] holds of. *)
Definition grown (quiet : event -> Prop) (w w' : World) : Prop :=
  exists evs, trace w' = (trace w ++ evs)%list /\ Forall quiet evs.

(** A relation that does not look at the model, at the disk, or that
    lets the event [ev] enter the trace. *)
Definition ignores_model (R : World -> World -> Prop) : Prop :=
  forall m w, R w (set_model m w).

Definition ignores_files (R : World -> World -> Prop) : Prop :=
  forall f w, R w (set_files f w).

Definition admits (R : World -> World -> Prop) (ev : event) : Prop :=
  forall w, R w (set_trace (fun t => (t ++ [ev])%list) w).

Definition is_post_process (ev : event) : Prop :=
  match ev with CallPostProcess _ _ _ _ => True | _ => False end.

(** An event other than a call of the post-processor. *)
Definition quiet (ev : event) : Prop := ~ is_post_process ev.

(** The trace of [w'] is the trace of [w0], then events that are not
    calls of the post-processor, then the call [ev]; and the path [p] is
    not on the disk of [w']. *)
Definition processed (w0 : World) (ev : event) (p : string) (w' : World) : Prop :=
  (exists evs, Forall quiet evs /\ trace w' = (trace w0 ++ evs ++ [ev])%list) /\
  files w' !! p = None.

Definition is_infer (ev : event) : Prop :=
  match ev with CallInfer _ _ _ => True | _ => False end.

Section WithCollaborators.
Context `{Platform} `{Synthesizer} `{AudioLib} (settings : Settings.t).

(** The calls a world can receive once the registry is constructed. *)
Inductive request :=
| Bootstrap
| Load
| Save
| SeedDefaultVoice
| ListVoices
| GetVoice (voice_id : option string)
| RegisterVoice (voice_id name file_path : string)
| AddVoice (upload : UploadFile.t) (voice_name : string)
| AbsoluteVoicePath (voice : Voice.t)
| EnsureModelLoaded
| Generate (unique_id : string) (payload : GenerateRequest.t).

(** The world after a call, whether it returned or raised. *)
Definition serve (r : request) (w : World) : World :=
  match r with
  | Bootstrap => (VoiceManager.bootstrap settings w).2
  | Load => (VoiceManager._load settings w).2
  | Save => (VoiceManager._save settings w).2
  | SeedDefaultVoice => (VoiceManager._seed_default_voice settings w).2
  | ListVoices => (VoiceManager.list_voices w).2
  | GetVoice voice_id => (VoiceManager.get_voice settings voice_id w).2
  | RegisterVoice voice_id name file_path =>
      (VoiceManager.register_voice settings voice_id name file_path w).2
  | AddVoice upload voice_name => (VoiceManager.add_voice settings upload voice_name w).2
  | AbsoluteVoicePath voice => (VoiceManager.absolute_voice_path settings voice w).2
  | EnsureModelLoaded => (TTSService.ensure_model_loaded settings w).2
  | Generate unique_id payload => (TTSService.generate settings unique_id payload w).2
  end.

(** The worlds of a running service: the registry has been constructed,
    then calls were served and files came and went on the disk. *)
Inductive reachable : World -> Prop :=
| reach_init w : reachable (VoiceManager.__init__ settings w).2
| reach_serve r w : reachable w -> reachable (serve r w)
| reach_disk fs w : reachable w -> reachable (set_files (fun _ => fs) w).

End WithCollaborators.
End Process.

(** ** [app/models.py]: the response models *)

Module VoiceListResponse.
Record t := mk {
  voices : list Voice.t
}.
End VoiceListResponse.

Module VoiceCloneResponse.
Record t := mk {
  voice_id : string;
  name : string;
  path : string
}.
End VoiceCloneResponse.

Module HealthGPU.
Record t := mk {
  available : bool;
  name : option string;
  count : nat;
  memory_total_gb : option Q
}.
End HealthGPU.

Module HealthModel.
Record t := mk {
  loaded : bool;
  device : option string;
  version : option string
}.
End HealthModel.

Module HealthResponse.
Record t := mk {
  status : string;
  gpu : HealthGPU.t;
  model : HealthModel.t;
  voices : nat
}.
End HealthResponse.

(** ** [app/services/tts_service.py]: the constructor and the health report *)

Module TTSServiceMore.
Import Eff.

(** [torch]: the exception of [import torch] when the import fails,
    what [torch.cuda] says of device 0, and [round(x, 2)]. *)
Class Torch := {
  import_torch : option exn;
  cuda_is_available : bool;
  cuda_get_device_name : string;
  cuda_total_memory : N;
  cuda_device_count : nat;
  round2 : Q -> Q
}.

(** The dict that [health] returns. *)
Record report := mkReport {
  gpu : HealthGPU.t;
  model : HealthModel.t;
  voices : nat
}.

(** [TTSService(settings, voice_manager)]: no model yet. *)
Definition __init__ : M unit :=
  modify (fun w => mkWorld (files w) (ticks w) (_voices w) None None None (trace w)).

Definition model_version : M (option string) := gets _model_version.

Definition device : M (option string) := gets _device.

Section WithTorch.
Context `{Torch}.

Definition health : M report :=
  match import_torch with
  | Some exc => raise exc
  | None =>
      let gpu_available := cuda_is_available in
      let gpu_name := if gpu_available then Some cuda_get_device_name else None in
      let memory_total :=
        if gpu_available
        then Some (inject_Z (Z.of_N cuda_total_memory) / inject_Z (1024 ^ 3))%Q
        else None in
      let memory_total_gb :=
        match memory_total with
        | Some m => if Qeq_bool m 0 then None else Some (round2 m)
        | None => None
        end in
      loaded ← TTSService.is_model_loaded;
      dev ← device;
      version ← model_version;
      listed ← VoiceManager.list_voices;
      mret (mkReport
              (HealthGPU.mk gpu_available gpu_name cuda_device_count memory_total_gb)
              (HealthModel.mk loaded dev version)
              (length listed))
  end.

End WithTorch.
End TTSServiceMore.

(** ** [app/main.py]: the handlers of the routes *)

Module Api.
Import PyStr Eff.

Section WithCollaborators.
Context `{Platform} `{Synthesizer} `{AudioLib} `{TTSServiceMore.Torch} (settings : Settings.t).


(** The body of [lifespan] before the [yield]. *)
Definition lifespan (autoload_model : bool) : M unit :=
  if autoload_model then TTSService.ensure_model_loaded settings else mret tt.

(** [GET /health] *)
Definition health : M HealthResponse.t :=
  payload ← TTSServiceMore.health;
  mret (HealthResponse.mk "ok" (TTSServiceMore.gpu payload) (TTSServiceMore.model payload)
          (TTSServiceMore.voices payload)).

(** [GET /voices] *)
Definition list_voices : M VoiceListResponse.t :=
  voices ← VoiceManager.list_voices;
  mret (VoiceListResponse.mk voices).

(** [POST /clone-voice] *)
Definition clone_voice (voice_name : string) (file : UploadFile.t)
    : M VoiceCloneResponse.t :=
  voice ← VoiceManager.add_voice settings file voice_name;
  mret (VoiceCloneResponse.mk (Voice.id voice) (Voice.name voice) (Voice.path voice)).

(** [POST /generate]; [url_for] is [request.url_for] of the request,
    and [unique_id] the token that [generate] draws. *)
Definition generate (url_for : string -> string -> string) (unique_id : string)
    (payload : GenerateRequest.t) : M GenerateResponse.t :=
  response ← TTSService.generate settings unique_id payload;
  let audio_url := url_for "output" (GenerateResponse.audio_path response) in
  mret (GenerateResponse.mk (GenerateResponse.voice_id response)
          ("output/" +:+ GenerateResponse.audio_path response)
          audio_url).

End WithCollaborators.
End Api.

(** ** [tools/download_models.py] *)

Module DownloadModels.
Import PyStr Paths Eff.

(** The arguments as [argparse] returns them. *)
Record Namespace := mkNamespace {
  model_dir : string;
  repo_id : string;
  revision : option string;
  download_auxiliary : bool;
  skip_modelscope : bool
}.

(** [parser.parse_args([])]: the defaults. *)
Definition defaults : Namespace := {|
  model_dir := "/app/models";
  repo_id := "IndexTeam/IndexTTS-2";
  revision := None;
  download_auxiliary := false;
  skip_modelscope := false
|}.

(** The calls of the two hubs, in the order they are made. *)
Inductive download :=
| HfSnapshot (repo_id local_dir cache_dir : string) (revision : option string)
| MsSnapshot (model_id local_dir cache_dir : string).

(** The two hubs: the exception of a download that fails, and the
    message of the [ImportError] when ModelScope is not installed. *)
Class Hubs := {
  snapshot_download : string -> string -> string -> option string -> option exn;
  import_modelscope : option string;
  ms_snapshot_download : string -> string -> string -> option exn
}.

(** A run of the script: its outcome and the downloads it has asked
    for. *)
Definition D (A : Type) : Type := list download -> result A * list download.

#[local] Instance D_ret : MRet D := fun A a log => (Ok a, log).
#[local] Instance D_bind : MBind D := fun A B f m log =>
  match m log with
  | (Ok a, log') => f a log'
  | (Raise e, log') => (Raise e, log')
  end.

(** [s.replace(old, new)] for two characters. *)
Fixpoint replace_char (old new : ascii) (s : string) : string :=
  match s with
  | EmptyString => EmptyString
  | String c s' => String (if decide (c = old) then new else c) (replace_char old new s')
  end.

Definition auxiliaries : list string :=
  ["facebook/w2v-bert-2.0"; "funasr/campplus"; "amphion/MaskGCT"].

Section WithHubs.
Context `{Hubs}.

Definition _download_hf (repo_id local_dir cache_dir : string) (revision : option string)
    : D unit := fun log =>
  let log' := (log ++ [HfSnapshot repo_id local_dir cache_dir revision])%list in
  match snapshot_download repo_id local_dir cache_dir revision with
  | Some exc => (Raise exc, log')
  | None => (Ok tt, log')
  end.

Definition _download_modelscope (model_id target_dir : string) : D unit :=
  match import_modelscope with
  | Some _ => mret tt
  | None => fun log =>
      let log' := (log ++ [MsSnapshot model_id target_dir target_dir])%list in
      match ms_snapshot_download model_id target_dir target_dir with
      | Some exc => (Raise exc, log')
      | None => (Ok tt, log')
      end
  end.

(** The loop over the auxiliary repositories. *)
Fixpoint download_each (cache_dir : string) (repos : list string) : D unit :=
  match repos with
  | [] => mret tt
  | repo :: rest =>
      let target := joinpath cache_dir (replace_char "/" "_" repo) in
      _ ← _download_hf repo target cache_dir None;
      download_each cache_dir rest
  end.

(** [main] from the parsed arguments on; the directories are implicit
    and the token of the environment is not modelled. *)
Definition main (args : Namespace) : D unit :=
  let model_dir := model_dir args in
  let cache_dir := joinpath model_dir "hf_cache" in
  _ ← _download_hf (repo_id args) model_dir cache_dir (revision args);
  _ ← (if download_auxiliary args then download_each cache_dir auxiliaries else mret tt);
  if negb (skip_modelscope args)
  then _download_modelscope "IndexTeam/IndexTTS-2" model_dir
  else mret tt.

End WithHubs.
End DownloadModels.

(** ** The shape of a slug *)

Module SlugShape.
Import PyStr Slug.

(** A text of characters of [a-z0-9] and dashes in which no dash follows
    a dash; [after_dash] tells that the text comes after a dash. *)
Fixpoint single_dashes (after_dash : bool) (s : string) : bool :=
  match s with
  | EmptyString => true
  | String c s' =>
      if is_slug_char c then single_dashes false s'
      else is_char dash c && negb after_dash && single_dashes true s'
  end.

End SlugShape.

(** ** Stubs, as the tests of the repository use them *)

Module Fixture.
Import Clock Json Eff.

Definition epoch : datetime := mkDatetime 2024 5 1 10 20 30 0.

(** A clock that advances one second a reading, and a validator that
    takes every string for a datetime. *)
Definition platform : Platform := {|
  clock := fun n => mkDatetime 2024 5 1 10 20 (N.of_nat n) 0;
  validate_datetime := fun j => match j with JStr _ => Some epoch | _ => None end
|}.

(** A model that loads at once and writes four bytes to the path it is
    given. *)
Definition synthesizer : Synthesizer := {|
  import_IndexTTS2 := fun _ => None;
  IndexTTS2 := fun _ _ => Ok (mkModel (Some "cpu") (Some "stub"));
  infer := fun _ _ _ output_path fs => (Ok (Some output_path), <[output_path := Raw "RIFF"]> fs)
|}.

(** A model whose first load fails and whose later loads succeed. *)
Definition flaky_synthesizer : Synthesizer := {|
  import_IndexTTS2 := fun _ => None;
  IndexTTS2 := fun n _ =>
    match n with
    | O => Raise (LibraryError "checkpoint missing")
    | S _ => Ok (mkModel (Some "cpu") (Some "stub"))
    end;
  infer := fun _ _ _ output_path fs => (Ok (Some output_path), <[output_path := Raw "RIFF"]> fs)
|}.

(** An audio library that decodes every byte file to one sample, leaves
    the samples alone and writes a file of three bytes. *)
Definition audio : AudioLib := {|
  librosa_load := fun c =>
    match c with
    | Raw _ => Ok ([1%Z], 16000%N)
    | Doc _ => Raise (LibraryError "format not recognised")
    end;
  time_stretch := fun y _ => Ok y;
  pitch_shift := fun y _ _ => Ok y;
  sf_write := fun _ _ _ => (Ok tt, Some (Raw "PCM"))
|}.

(** An audio library whose writer fails on a full disk and leaves the
    two bytes it had written. *)
Definition torn_audio : AudioLib := {|
  librosa_load := librosa_load (AudioLib := audio);
  time_stretch := fun y _ => Ok y;
  pitch_shift := fun y _ _ => Ok y;
  sf_write := fun _ _ _ => (Raise (LibraryError "No space left on device"), Some (Raw "RI"))
|}.

(** [make_settings(tmp_path)] of the tests, with [/tmp] for the path. *)
Definition settings : Settings.t := {|
  Settings.model_dir := "/tmp/models";
  Settings.config_path := "/tmp/models/config.yaml";
  Settings.voices_dir := "/tmp/voices";
  Settings.output_dir := "/tmp/output";
  Settings.metadata_path := "/tmp/voices/voices.json";
  Settings.default_voice_name := "Default";
  Settings.default_voice_id := "default";
  Settings.default_voice_source := Some "tests/sample_prompt.wav";
  Settings.cache_dir := "/app/models/hf_cache";
  Settings.modelscope_cache_dir := "/app/models/modelscope_cache"
|}.

Definition upload : UploadFile.t := UploadFile.mk (Some "voice.wav") "RIFFdata".

(** The request of [test_generate_with_json_payload], and a token. *)
Definition request : GenerateRequest.t := GenerateRequest.mk "hello" None (12 # 10) (-1 # 1).

Definition blank_request : GenerateRequest.t := GenerateRequest.mk "  " None 1 0.

Definition token : string := "0123456789abcdef0123456789abcdef".

(** A disk that holds the sample prompt and nothing else; no registry
    and no model yet. *)
Definition fresh : World := {|
  files := {["tests/sample_prompt.wav" := Raw "RIFFdata"]};
  ticks := 0;
  _voices := ∅;
  _model := None;
  _model_version := None;
  _device := None;
  trace := []
|}.

(** The world of the tests after the registry is constructed: the
    default voice is seeded. *)
Definition seeded : World := (@VoiceManager.__init__ platform settings fresh).2.

End Fixture.

(** ** More stubs *)

Module Stubs.
Import Clock Json Eff.

(** A machine without CUDA. *)
Definition torch : TTSServiceMore.Torch := {|
  TTSServiceMore.import_torch := None;
  TTSServiceMore.cuda_is_available := false;
  TTSServiceMore.cuda_get_device_name := "";
  TTSServiceMore.cuda_total_memory := 0;
  TTSServiceMore.cuda_device_count := 0;
  TTSServiceMore.round2 := fun x => x
|}.


(** A request that leaves speed and pitch at their defaults. *)
Definition plain_request : GenerateRequest.t := GenerateRequest.mk "hello" None 1 0.


(** The seeded world of the tests with the model loaded. *)
Definition loaded : World :=
  (TTSService.ensure_model_loaded (H0 := Fixture.synthesizer) Fixture.settings
     Fixture.seeded).2.




(** [request.url_for] of a test client. *)
Definition url_for (name path : string) : string :=
  "http://testserver/" +:+ name +:+ "/" +:+ path.

(** The fresh disk with a metadata file that is not a JSON document. *)
Definition corrupt : World :=
  set_files (insert (Settings.metadata_path Fixture.settings) (Raw "{voices"))
    Fixture.fresh.

(** Hubs whose downloads succeed, on a machine without ModelScope. *)
Definition hubs : DownloadModels.Hubs := {|
  DownloadModels.snapshot_download := fun _ _ _ _ => None;
  DownloadModels.import_modelscope := Some "No module named modelscope";
  DownloadModels.ms_snapshot_download := fun _ _ _ => None
|}.

End Stubs.

(** * Properties *)

(** ** Strings *)

Module PyStrFacts.
Import PyStr.

Lemma app_cons c s t : String c s +:+ t = String c (s +:+ t).
Proof. reflexivity. Qed.

Lemma app_empty_l t : "" +:+ t = t.
Proof. reflexivity. Qed.

Lemma length_app s t :
  String.length (s +:+ t) = String.length s + String.length t.
Proof.
  induction s as [|c s IH]; [done|].
  rewrite app_cons. simpl. by rewrite IH.
Qed.

Lemma app_assoc s t u : (s +:+ t) +:+ u = s +:+ (t +:+ u).
Proof. induction s as [|c s IH]; [done|]. rewrite !app_cons. by rewrite IH. Qed.

Lemma app_empty_r s : s +:+ "" = s.
Proof. induction s as [|c s IH]; [done|]. rewrite app_cons. by rewrite IH. Qed.

Lemma all_chars_app p s t :
  all_chars p (s +:+ t) = all_chars p s && all_chars p t.
Proof.
  induction s as [|c s IH]; [done|].
  rewrite app_cons. simpl. rewrite IH. by rewrite andb_assoc.
Qed.

Lemma all_chars_weaken (p q : ascii -> bool) s :
  (forall c, p c = true -> q c = true) ->
  all_chars p s = true -> all_chars q s = true.
Proof.
  intros Hpq. induction s as [|c s IH]; simpl; [done|].
  intros [Hc Hs]%andb_prop. rewrite (Hpq _ Hc). by apply IH.
Qed.

Lemma lstrip_all p s : all_chars p (lstrip p s) = all_chars p s.
Proof.
  induction s as [|c s IH]; simpl; [done|].
  destruct (p c) eqn:Hc; simpl; [done|]. by rewrite Hc.
Qed.

Lemma lstrip_empty p s : lstrip p s = "" <-> all_chars p s = true.
Proof.
  induction s as [|c s IH]; simpl; [done|].
  destruct (p c); simpl; [done|]. split; discriminate.
Qed.

Lemma rstrip_empty p s : rstrip p s = "" <-> all_chars p s = true.
Proof.
  induction s as [|c s IH]; simpl; [done|].
  destruct (rstrip p s) as [|d r] eqn:Hr.
  - destruct IH as [IH _]. rewrite (IH eq_refl), andb_true_r.
    destruct (p c); split; done.
  - split; [discriminate|]. intros [_ Hs]%andb_prop.
    destruct IH as [_ IH]. by specialize (IH Hs).
Qed.

(** [s.strip()] is empty exactly for the strings made of stripped
    characters only, the empty string among them. *)
Lemma strip_empty p s : strip p s = "" <-> all_chars p s = true.
Proof.
  unfold strip. rewrite rstrip_empty. by rewrite lstrip_all.
Qed.

Lemma falsy_spec s : falsy s = true <-> s = "".
Proof. destruct s; simpl; split; done. Qed.

Lemma falsy_false s : falsy s = false <-> s <> "".
Proof. destruct s; simpl; split; done. Qed.

(** Stripping keeps what holds of every character. *)
Lemma lstrip_keeps p q s :
  all_chars q s = true -> all_chars q (lstrip p s) = true.
Proof.
  induction s as [|c s IH]; simpl; [done|].
  intros Hq. destruct (p c); simpl; [|done].
  apply IH. by apply andb_prop in Hq as [_ ?].
Qed.

Lemma rstrip_keeps p q s :
  all_chars q s = true -> all_chars q (rstrip p s) = true.
Proof.
  induction s as [|c s IH]; simpl; [done|].
  intros [Hc Hs]%andb_prop. specialize (IH Hs).
  destruct (rstrip p s) as [|d r].
  - destruct (p c); simpl; [done|]. by rewrite Hc.
  - simpl in *. by rewrite Hc, IH.
Qed.

Lemma strip_keeps p q s :
  all_chars q s = true -> all_chars q (strip p s) = true.
Proof. intros. by apply rstrip_keeps, lstrip_keeps. Qed.

(** The two ends of a stripped string are not stripped characters. *)
Lemma lstrip_head p s c r : lstrip p s = String c r -> p c = false.
Proof.
  induction s as [|d s IH]; simpl; [done|].
  destruct (p d) eqn:Hd; [done|]. by intros [= <- _].
Qed.

Lemma rstrip_last p s c : last_char (rstrip p s) = Some c -> p c = false.
Proof.
  induction s as [|d s IH]; simpl; [done|].
  destruct (rstrip p s) as [|e r] eqn:Hr.
  - destruct (p d) eqn:Hd; simpl; [done|]. by intros [= <-].
  - simpl. intros Hl. apply IH. simpl. by destruct r.
Qed.

Lemma rstrip_head p s c r :
  rstrip p s = String c r -> exists r', s = String c r'.
Proof.
  destruct s as [|d s]; simpl; [done|].
  destruct (rstrip p s); [destruct (p d)|]; intros [= <- _]; eauto.
Qed.

Lemma strip_head p s c r : strip p s = String c r -> p c = false.
Proof.
  unfold strip. intros Hs.
  destruct (rstrip_head _ _ _ _ Hs) as [r' Hl].
  by apply lstrip_head in Hl.
Qed.

Lemma strip_last p s c : last_char (strip p s) = Some c -> p c = false.
Proof. apply rstrip_last. Qed.

End PyStrFacts.

(** ** The slugger *)

Module SlugFacts.
Import PyStr PyStrFacts Clock Slug.

Lemma concat_str_cons s l : concat_str (s :: l) = s +:+ concat_str l.
Proof. done. Qed.

(** The scan of the pattern, inside a match or not, against the
    grouping into maximal runs. *)
Lemma sub_scan_runs s :
  sub_scan "-" false s = concat_str (replace_run <$> maximal_runs s) /\
  sub_scan "-" true s =
    match maximal_runs s with
    | (true, _) :: rest => concat_str (replace_run <$> rest)
    | runs => concat_str (replace_run <$> runs)
    end.
Proof.
  induction s as [|c s [IHf IHt]]; simpl; [done|].
  destruct (outside c) eqn:Hc.
  - destruct (maximal_runs s) as [|[[] r] rest] eqn:Hr; simpl.
    + by rewrite IHt.
    + by rewrite IHt.
    + rewrite IHt. simpl. done.
  - rewrite IHf.
    destruct (maximal_runs s) as [|[[] r] rest] eqn:Hr; simpl; done.
Qed.

Lemma maximal_runs_concat s : concat_str ((maximal_runs s).*2) = s.
Proof.
  induction s as [|c s IH]; simpl; [done|].
  destruct (maximal_runs s) as [|[b r] rest]; simpl in *.
  - by subst.
  - rewrite <- IH. by destruct (Bool.eqb (outside c) b).
Qed.

Lemma maximal_runs_ok s : Forall run_ok (maximal_runs s).
Proof.
  assert (Hone : forall c, run_ok (outside c, String c EmptyString)).
  { intros c. split; [done|]. cbn [all_chars fst snd].
    by rewrite Bool.eqb_reflx. }
  induction s as [|c s IH]; cbn [maximal_runs]; [constructor|].
  destruct (maximal_runs s) as [|[b r] rest].
  - constructor; [apply Hone|constructor].
  - inversion_clear IH as [|?? [Hne Hall] Hrest].
    destruct (Bool.eqb (outside c) b) eqn:Hb.
    + constructor; [|done]. split; [done|].
      cbn [all_chars fst snd] in *. by rewrite Hb, Hall.
    + constructor; [apply Hone|]. constructor; [|done]. by split.
Qed.

Lemma maximal_runs_alternating s : alternating (maximal_runs s).
Proof.
  induction s as [|c s IH]; simpl; [done|].
  destruct (maximal_runs s) as [|[b r] rest] eqn:Hr; [done|].
  destruct (Bool.eqb (outside c) b) eqn:Hb.
  - destruct rest as [|r2 rest]; [done|]. exact IH.
  - split; [|exact IH]. simpl. intros Heq. subst b.
    by rewrite Bool.eqb_reflx in Hb.
Qed.

Lemma sub_scan_alphabet b s : all_chars slug_alphabet (sub_scan "-" b s) = true.
Proof.
  revert b. induction s as [|c s IH]; intros b; cbn [sub_scan]; [done|].
  unfold outside. destruct (is_slug_char c) eqn:Hc; cbn [negb].
  - cbn [all_chars]. unfold slug_alphabet at 1. by rewrite Hc, IH.
  - destruct b; [apply IH|].
    change ("-" +:+ sub_scan "-" true s) with (String dash (sub_scan "-" true s)).
    cbn [all_chars]. by rewrite IH.
Qed.

(** Decimal digits only. *)
Lemma pretty_N_char_digit x : is_digit (pretty_N_char x) = true.
Proof. unfold pretty_N_char. by repeat case_match. Qed.

Lemma pretty_N_go_digits x s :
  all_chars is_digit s = true -> all_chars is_digit (pretty_N_go x s) = true.
Proof.
  revert s. induction (N.lt_wf_0 x) as [x _ IH]; intros s Hs.
  destruct (decide (x = 0)%N) as [->|Hx]; [by rewrite pretty_N_go_0|].
  rewrite pretty_N_go_step by lia.
  apply IH; [apply N.div_lt; lia|].
  simpl. by rewrite pretty_N_char_digit, Hs.
Qed.

Lemma pretty_N_digits (x : N) : all_chars is_digit (pretty x) = true.
Proof.
  unfold pretty, pretty_N. case_decide; [done|].
  by apply pretty_N_go_digits.
Qed.

Lemma zeros_digits n : all_chars is_digit (zeros n) = true.
Proof. induction n; simpl; done. Qed.

Lemma digits_digits w n : all_chars is_digit (digits w n) = true.
Proof.
  unfold digits, zfill.
  by rewrite all_chars_app, zeros_digits, pretty_N_digits.
Qed.

Lemma strftime_compact_digits d : all_chars is_digit (strftime_compact d) = true.
Proof.
  unfold strftime_compact.
  by rewrite !all_chars_app, !digits_digits.
Qed.

(** The width of the fields of a timestamp. *)
Lemma pretty_N_go_unit x s :
  (0 < x < 10)%N -> pretty_N_go x s = String (pretty_N_char x) s.
Proof.
  intros Hx. rewrite pretty_N_go_step by lia.
  rewrite N.div_small, N.mod_small by lia. apply pretty_N_go_0.
Qed.

Lemma pretty_length_1 (x : N) : (x < 10)%N -> String.length (pretty x) = 1.
Proof.
  intros Hx. unfold pretty, pretty_N. case_decide; [done|].
  by rewrite pretty_N_go_unit by lia.
Qed.

Lemma pretty_length_2 (x : N) : (10 <= x < 100)%N -> String.length (pretty x) = 2.
Proof.
  intros Hx. unfold pretty, pretty_N. case_decide; [lia|].
  rewrite pretty_N_go_step by lia.
  assert (0 < x `div` 10 < 10)%N.
  { split; [apply N.div_str_pos; lia|apply N.Div0.div_lt_upper_bound; lia]. }
  by rewrite pretty_N_go_unit.
Qed.

Lemma pretty_length_4 (x : N) : (1000 <= x < 10000)%N -> String.length (pretty x) = 4.
Proof.
  intros Hx. unfold pretty, pretty_N. case_decide; [lia|].
  assert (100 <= x `div` 10 < 1000)%N as H1.
  { split; [apply N.div_le_lower_bound; lia|apply N.Div0.div_lt_upper_bound; lia]. }
  assert (10 <= (x `div` 10) `div` 10 < 100)%N as H2.
  { split; [apply N.div_le_lower_bound; lia|apply N.Div0.div_lt_upper_bound; lia]. }
  assert (0 < ((x `div` 10) `div` 10) `div` 10 < 10)%N as H3.
  { split; [apply N.div_str_pos; lia|apply N.Div0.div_lt_upper_bound; lia]. }
  rewrite pretty_N_go_step by lia.
  rewrite pretty_N_go_step by lia.
  rewrite pretty_N_go_step by lia.
  by rewrite pretty_N_go_unit.
Qed.

Lemma digits_2_length n : (n <= 99)%N -> String.length (digits 2 n) = 2.
Proof.
  intros Hn. unfold digits, zfill. rewrite length_app.
  destruct (decide (n < 10)%N).
  - by rewrite pretty_length_1.
  - by rewrite pretty_length_2 by lia.
Qed.

Lemma digits_4_length n : (1000 <= n <= 9999)%N -> String.length (digits 4 n) = 4.
Proof.
  intros Hn. unfold digits, zfill. rewrite length_app.
  by rewrite pretty_length_4 by lia.
Qed.

Lemma strftime_compact_length d :
  in_range d -> String.length (strftime_compact d) = 14.
Proof.
  intros (Hy & Hm & Hd & Hh & Hmi & Hs). unfold strftime_compact.
  rewrite !length_app, digits_4_length by done.
  by rewrite !digits_2_length by done.
Qed.

Lemma spec_slug_scan value :
  spec_slug value = strip (is_char dash) (_SLUGIFY_RE_sub "-" (lower value)).
Proof.
  unfold spec_slug, _SLUGIFY_RE_sub.
  by destruct (sub_scan_runs (lower value)) as [-> _].
Qed.

Lemma sub_scan_all_outside s :
  all_chars outside s = true ->
  sub_scan "-" true s = "" /\ all_chars (is_char dash) (sub_scan "-" false s) = true.
Proof.
  induction s as [|c s IH]; cbn [all_chars sub_scan]; [done|].
  intros [Hc Hs]%andb_prop. rewrite Hc. destruct (IH Hs) as [IHt _].
  by rewrite IHt.
Qed.

Lemma is_char_false d c : is_char d c = false -> c <> d.
Proof. unfold is_char. by case_decide. Qed.

Lemma slugify_examples :
  spec_slug "New Voice" = "new-voice" /\
  spec_slug "  --Hello,  World!! 42 " = "hello-world-42" /\
  spec_slug "a--b" = "a-b" /\
  spec_slug "!!!" = "" /\
  spec_slug "" = "" /\
  spec_slugify (mkDatetime 2024 5 1 9 7 3 250000) "?!" = "voice-20240501090703".
Proof. by vm_compute. Qed.

Section Contract.
Context `{Eff.Platform}.

(** C4. [_slugify] returns what the specification words: the input
    lower-cased, every maximal run of characters outside [a-z0-9]
    replaced by one dash, the dashes at both ends trimmed; the runs
    are a partition of the lower-cased input into blocks of one
    class, no two neighbours of the same class.  The slug is made of
    [a-z0-9] and dashes, has no dash at either end, and is empty for an
    input without a character of [a-z0-9].  When that slug is
    empty the result is [voice-] followed by the UTC time of the call
    as digits only, fourteen of them for a four-digit year, with no
    field below the second.  The result is never empty, and only the
    fallback reads the clock. *)
Theorem slugify_contract (value : string) (w : Eff.World) :
  let now := Eff.clock (Eff.ticks w) in
  let runs := maximal_runs (lower value) in
  (VoiceManager._slugify value w).1 = Eff.Ok (spec_slugify now value) /\
  concat_str runs.*2 = lower value /\
  Forall run_ok runs /\
  alternating runs /\
  all_chars slug_alphabet (spec_slug value) = true /\
  (forall c r, spec_slug value = String c r -> c <> dash) /\
  (forall c, last_char (spec_slug value) = Some c -> c <> dash) /\
  (all_chars outside (lower value) = true -> spec_slug value = "") /\
  (spec_slug value = "" ->
     spec_slugify now value = "voice-" +:+ strftime_compact now /\
     (VoiceManager._slugify value w).2 = Eff.set_ticks S w) /\
  (spec_slug value <> "" ->
     spec_slugify now value = spec_slug value /\
     (VoiceManager._slugify value w).2 = w) /\
  all_chars is_digit (strftime_compact now) = true /\
  (in_range now -> String.length (strftime_compact now) = 14) /\
  spec_slugify now value <> "".
Proof.
  intros now runs.
  assert (Hrun : (VoiceManager._slugify value w).1 = Eff.Ok (spec_slugify now value) /\
                 (spec_slug value = "" ->
                    (VoiceManager._slugify value w).2 = Eff.set_ticks S w) /\
                 (spec_slug value <> "" ->
                    (VoiceManager._slugify value w).2 = w)).
  { unfold VoiceManager._slugify, spec_slugify. rewrite <- spec_slug_scan.
    destruct (spec_slug value) as [|c r]; simpl; by repeat split. }
  destruct Hrun as (Hres & Hfall & Hplain).
  split_and!.
  - exact Hres.
  - apply maximal_runs_concat.
  - apply maximal_runs_ok.
  - apply maximal_runs_alternating.
  - rewrite spec_slug_scan. apply strip_keeps, sub_scan_alphabet.
  - intros c r Hslug. rewrite spec_slug_scan in Hslug.
    by apply strip_head, is_char_false in Hslug.
  - intros c Hlast. rewrite spec_slug_scan in Hlast.
    by apply strip_last, is_char_false in Hlast.
  - intros Hall. rewrite spec_slug_scan. apply strip_empty.
    by apply sub_scan_all_outside.
  - intros Hempty. split; [|by apply Hfall].
    unfold spec_slugify. by rewrite Hempty.
  - intros Hslug. split; [|by apply Hplain].
    unfold spec_slugify. by destruct (spec_slug value).
  - apply strftime_compact_digits.
  - apply strftime_compact_length.
  - unfold spec_slugify. by destruct (spec_slug value).
Qed.

End Contract.

End SlugFacts.


(** ** The voice registry *)

Module RegistryFacts.
Import PyStr PyStrFacts Clock Slug SlugFacts Paths Json Eff VoiceManager.

(** *** The loop that resolves an identifier *)

Lemma candidate_one slug : candidate slug 1 = slug.
Proof. done. Qed.

Lemma candidate_next slug k :
  1 <= k -> candidate slug (S k) = slug +:+ "-" +:+ pretty (S k).
Proof. intros Hk. unfold candidate. case_decide; [lia|done]. Qed.

Lemma app_not_self (s t : string) : t <> "" -> s +:+ t <> s.
Proof.
  intros Ht Heq. apply (f_equal String.length) in Heq.
  rewrite length_app in Heq. destruct t; [done|]. simpl in Heq. lia.
Qed.

(** Different counters give different candidates. *)
Lemma candidate_inj slug j k :
  1 <= j -> 1 <= k -> candidate slug j = candidate slug k -> j = k.
Proof.
  intros Hj Hk. unfold candidate. repeat case_decide; intros Heq.
  - lia.
  - symmetry in Heq. by apply app_not_self in Heq.
  - by apply app_not_self in Heq.
  - apply (inj (String.app slug)) in Heq.
    apply (inj (String.app "-")) in Heq.
    by apply (inj pretty) in Heq.
Qed.

(** The loop stops at the first free candidate from [counter] on. *)
Lemma resolve_loop_sound voices slug fuel counter r :
  1 <= counter ->
  resolve_loop voices slug fuel counter (candidate slug counter) = Some r ->
  exists k, counter <= k /\ r = candidate slug k /\ voices !! r = None /\
            forall j, counter <= j < k -> is_Some (voices !! candidate slug j).
Proof.
  revert counter. induction fuel as [|fuel IH]; intros counter Hc; simpl; [done|].
  case_bool_decide as Hin.
  - rewrite <- (candidate_next slug counter Hc). intros Hr.
    destruct (IH (S counter) ltac:(lia) Hr) as (k & Hk & -> & Hfree & Hbusy).
    exists k. split_and!; [lia|done|done|].
    intros j Hj. destruct (decide (j = counter)) as [->|]; [done|].
    apply Hbusy. lia.
  - intros [= <-]. exists counter. split_and!; [lia|done| |intros; lia].
    by apply eq_None_not_Some.
Qed.

(** A run that uses up its fuel has found every candidate taken. *)
Lemma resolve_loop_exhausted voices slug fuel counter :
  1 <= counter ->
  resolve_loop voices slug fuel counter (candidate slug counter) = None ->
  forall j, counter <= j < counter + fuel -> is_Some (voices !! candidate slug j).
Proof.
  revert counter. induction fuel as [|fuel IH]; intros counter Hc; simpl; [intros; lia|].
  case_bool_decide as Hin; [|done].
  rewrite <- (candidate_next slug counter Hc). intros Hr j Hj.
  destruct (decide (j = counter)) as [->|]; [done|].
  apply (IH (S counter)); [lia|done|lia].
Qed.

(** A registry holds no more distinct candidates than it has entries,
    so one more test than there are entries finds a free one. *)
Lemma resolve_loop_total voices slug :
  is_Some (resolve_loop voices slug (S (size voices)) 1 slug).
Proof.
  destruct (resolve_loop voices slug (S (size voices)) 1 slug) eqn:Hr; [by eexists|].
  exfalso. rewrite <- (candidate_one slug) in Hr at 2.
  pose proof (resolve_loop_exhausted _ _ _ _ (le_n 1) Hr) as Hall.
  set (l := candidate slug <$> seq 1 (S (size voices))).
  assert (NoDup l) as Hnd.
  { apply NoDup_fmap_2_strong; [|apply NoDup_seq].
    intros j k Hj%elem_of_seq Hk%elem_of_seq. apply candidate_inj; lia. }
  assert (list_to_set l ⊆ dom voices) as Hsub.
  { intros x Hx%elem_of_list_to_set. unfold l in Hx.
    apply list_elem_of_fmap in Hx as (j & -> & Hj%elem_of_seq).
    apply elem_of_dom, Hall. lia. }
  apply subseteq_size in Hsub.
  rewrite size_list_to_set, size_dom in Hsub by done.
  unfold l in Hsub. rewrite length_fmap, length_seq in Hsub. lia.
Qed.

Lemma resolve_loop_first_free voices slug :
  exists k, resolve_loop voices slug (S (size voices)) 1 slug = Some (candidate slug k) /\
            first_free voices slug k.
Proof.
  destruct (resolve_loop_total voices slug) as [r Hr].
  pose proof Hr as Hr'. rewrite <- (candidate_one slug) in Hr' at 2.
  destruct (resolve_loop_sound _ _ _ _ _ (le_n 1) Hr') as (k & Hk & -> & Hfree & Hbusy).
  exists k. split; [done|]. by split_and!.
Qed.

(** *** Paths of the registry *)

Lemma relative_text_app s t : relative_text s -> relative_text (s +:+ t).
Proof. intros (c & r & -> & Hc). exists c, (r +:+ t). by rewrite app_cons. Qed.

Lemma is_absolute_cons c r : c <> slash -> is_absolute (String c r) = false.
Proof.
  intros Hc. unfold is_absolute, startswith. cbn [String.prefix].
  destruct (ascii_dec "/" c) as [Heq|]; [by destruct Hc|done].
Qed.

Lemma joinpath_relative d p :
  relative_text p -> joinpath d p = d +:+ "/" +:+ p.
Proof.
  intros (c & r & -> & Hc). unfold joinpath.
  by rewrite is_absolute_cons.
Qed.

Lemma drop_prefix_app a b : drop_prefix a (a +:+ b) = Some b.
Proof.
  induction a as [|c a IH]; [by destruct b|].
  rewrite app_cons. simpl. by rewrite decide_True.
Qed.

Lemma relative_to_below d q :
  q <> "" -> relative_to (d +:+ "/" +:+ q) d = Some q.
Proof.
  intros Hq. unfold relative_to. rewrite decide_False.
  - by rewrite <- app_assoc, drop_prefix_app.
  - by apply app_not_self.
Qed.

(** The file of a voice lies below the voices root, under the
    directory of its identifier. *)
Lemma relative_to_target d vid fn :
  relative_text vid -> relative_text fn ->
  relative_to (joinpath (joinpath d vid) fn) d = Some (vid +:+ "/" +:+ fn).
Proof.
  intros Hv Hf. rewrite (joinpath_relative _ fn Hf), (joinpath_relative _ vid Hv).
  rewrite !app_assoc. apply relative_to_below.
  destruct Hv as (c & r & -> & _). by rewrite app_cons.
Qed.

Lemma slug_alphabet_relative s :
  s <> "" -> all_chars slug_alphabet s = true -> relative_text s.
Proof.
  destruct s as [|c r]; [done|]. intros _ [Hc _]%andb_prop.
  exists c, r. split; [done|]. by intros ->.
Qed.

Lemma candidate_relative slug k :
  relative_text slug -> relative_text (candidate slug k).
Proof.
  intros Hs. unfold candidate. case_decide; [done|]. by apply relative_text_app.
Qed.

(** *** What the operations of the registry do *)

Lemma bind_ok {A B} (m : M A) (f : A -> M B) w a w' :
  m w = (Ok a, w') -> (m ≫= f) w = f a w'.
Proof. intros Hm. unfold mbind, M_bind. by rewrite Hm. Qed.

Lemma bind_raise {A B} (m : M A) (f : A -> M B) w e w' :
  m w = (Raise e, w') -> (m ≫= f) w = (Raise e, w').
Proof. intros Hm. unfold mbind, M_bind. by rewrite Hm. Qed.

Section Runs.
Context `{Platform} (settings : Settings.t).

(** [_save] cannot fail: the file it renames is the one it has just
    written. *)
Lemma save_run w :
  _save settings w = (Ok tt, set_files (saved_files settings (_voices w)) w).
Proof.
  unfold _save, saved_files, write, replace, modify, gets, mbind, M_bind, set_files.
  simpl. by rewrite lookup_insert_eq.
Qed.

Lemma save_metadata w :
  files (_save settings w).2 !! Settings.metadata_path settings
  = Some (Doc (payload_of (_voices w))).
Proof. rewrite save_run. simpl. unfold saved_files. by rewrite lookup_insert_eq. Qed.

Lemma register_voice_run voice_id name file_path rel w :
  relative_to file_path (Settings.voices_dir settings) = Some rel ->
  let voice := Voice.mk voice_id name rel (clock (ticks w)) in
  register_voice settings voice_id name file_path w
  = (Ok voice,
     set_files (saved_files settings (<[voice_id := voice]> (_voices w)))
       (set_voices (insert voice_id voice) (set_ticks S w))).
Proof.
  intros Hrel voice. unfold register_voice. rewrite Hrel.
  unfold mbind, M_bind, datetime_now, modify. rewrite save_run. done.
Qed.

Lemma slugify_run value w :
  exists slug w1,
    _slugify value w = (Ok slug, w1) /\
    slug = spec_slugify (clock (ticks w)) value /\
    relative_text slug /\
    _voices w1 = _voices w /\ files w1 = files w /\ trace w1 = trace w.
Proof.
  unfold _slugify, spec_slugify. rewrite <- spec_slug_scan.
  destruct (spec_slug value) as [|c r] eqn:Hslug; cbn [falsy].
  - eexists _, _. split; [reflexivity|]. split_and!; try done.
    exists "v"%char, ("oice-" +:+ strftime_compact (clock (ticks w))). by split.
  - eexists _, _. split; [reflexivity|]. split_and!; try done.
    apply slug_alphabet_relative; [done|].
    rewrite <- Hslug, spec_slug_scan. apply strip_keeps, sub_scan_alphabet.
Qed.

Lemma prompt_filename_relative upload : relative_text (prompt_filename upload).
Proof. unfold prompt_filename. eexists "p"%char, _. by split. Qed.

Lemma saved_files_keeps voices fs p :
  p <> with_suffix (Settings.metadata_path settings) ".tmp" ->
  is_Some (fs !! p) -> is_Some (saved_files settings voices fs !! p).
Proof.
  intros Htmp Hp. unfold saved_files. cbn zeta.
  destruct (decide (p = Settings.metadata_path settings)) as [->|Hmeta].
  - rewrite lookup_insert_eq. by eexists.
  - by rewrite lookup_insert_ne, lookup_delete_ne, lookup_insert_ne.
Qed.

(** A call of [add_voice] with a name that is not blank. *)
Lemma add_voice_run upload voice_name w :
  strip isspace voice_name <> "" ->
  exists slug k voice w',
    (_slugify voice_name w).1 = Ok slug /\
    first_free (_voices w) slug k /\
    add_voice settings upload voice_name w = (Ok voice, w') /\
    voice = Voice.mk (candidate slug k) (strip isspace voice_name)
              (candidate slug k +:+ "/" +:+ prompt_filename upload)
              (Voice.created_at voice) /\
    _voices w' = <[candidate slug k := voice]> (_voices w) /\
    files w' = saved_files settings (_voices w')
                 (<[joinpath (joinpath (Settings.voices_dir settings) (candidate slug k))
                      (prompt_filename upload) := Raw (UploadFile.file upload)]> (files w)).
Proof.
  intros Hname%falsy_false.
  destruct (slugify_run voice_name w) as (slug & w1 & Hslug & _ & Hrel & Hv1 & Hf1 & _).
  destruct (resolve_loop_first_free (_voices w) slug) as (k & Hloop & Hfree).
  unfold add_voice. rewrite Hname.
  rewrite (bind_ok _ _ _ _ _ Hslug).
  unfold gets at 1. unfold mbind at 1, M_bind at 1. rewrite Hv1, Hloop.
  unfold _resolve_target, mkdir, write, modify.
  unfold mbind at 1 2 3, M_bind at 1 2 3, mret at 1 2, M_ret at 1 2.
  rewrite register_voice_run with (rel := candidate slug k +:+ "/" +:+ prompt_filename upload).
  - eexists slug, k, _, _. rewrite Hslug. split_and!; try done.
    + simpl. by rewrite Hv1.
    + simpl. by rewrite Hv1, Hf1.
  - apply relative_to_target; [by apply candidate_relative|].
    apply prompt_filename_relative.
Qed.

Lemma slugify_new_voice w : _slugify "New Voice" w = (Ok "new-voice", w).
Proof. reflexivity. Qed.

(** C1. For a display name that is not blank [add_voice] succeeds, and
    the identifier of the voice it returns is the first free candidate
    among [slug], [slug-2], [slug-3], ... where [slug] is what
    [_slugify] gives for the name: that identifier is not in the
    registry before the call, every earlier candidate is, and after the
    call the registry holds the voice under it.  Two calls in a row with
    the name New Voice, on a registry that has neither [new-voice] nor
    [new-voice-2], give these two identifiers in this order, and
    afterwards both voices are in the registry and listed, each with
    the path of its prompt under the directory of its identifier; the
    two prompt files are on the disk unless one of them is the
    temporary file that [_save] renames. *)
Theorem add_voice_resolves :
  (forall upload voice_name w,
     strip isspace voice_name <> "" ->
     exists slug k voice w',
       (_slugify voice_name w).1 = Ok slug /\
       add_voice settings upload voice_name w = (Ok voice, w') /\
       Voice.id voice = candidate slug k /\
       first_free (_voices w) slug k /\
       candidate slug 1 = slug /\
       (forall j, 2 <= j -> candidate slug j = slug +:+ "-" +:+ pretty j) /\
       _voices w' = <[Voice.id voice := voice]> (_voices w)) /\
  (forall upload1 upload2 w,
     _voices w !! "new-voice" = None ->
     _voices w !! "new-voice-2" = None ->
     exists voice1 w1 voice2 w2,
       add_voice settings upload1 "New Voice" w = (Ok voice1, w1) /\
       add_voice settings upload2 "New Voice" w1 = (Ok voice2, w2) /\
       Voice.id voice1 = "new-voice" /\
       Voice.id voice2 = "new-voice-2" /\
       _voices w2 !! "new-voice" = Some voice1 /\
       _voices w2 !! "new-voice-2" = Some voice2 /\
       (exists listed, list_voices w2 = (Ok listed, w2) /\
                       voice1 ∈ listed /\ voice2 ∈ listed) /\
       Voice.path voice1 = "new-voice/" +:+ prompt_filename upload1 /\
       Voice.path voice2 = "new-voice-2/" +:+ prompt_filename upload2 /\
       let file_of voice := joinpath (Settings.voices_dir settings) (Voice.path voice) in
       let tmp_path := with_suffix (Settings.metadata_path settings) ".tmp" in
       (file_of voice1 <> tmp_path -> file_of voice2 <> tmp_path ->
        backed settings (files w2) voice1 /\ backed settings (files w2) voice2)).
Proof.
  split.
  - intros upload voice_name w Hname.
    destruct (add_voice_run upload voice_name w Hname)
      as (slug & k & voice & w' & Hslug & Hfree & Hrun & Hvoice & Hvoices & _).
    assert (Voice.id voice = candidate slug k) as Hid by (by rewrite Hvoice).
    exists slug, k, voice, w'. split_and!; try done.
    + intros j Hj. unfold candidate. case_decide; [lia|done].
    + by rewrite Hid.
  - intros upload1 upload2 w Hfree1 Hfree2.
    assert (strip isspace "New Voice" <> "") as Hname by done.
    destruct (add_voice_run upload1 "New Voice" w Hname)
      as (slug1 & k1 & voice1 & w1 & Hslug1 & Hk1 & Hrun1 & Hvoice1 & Hvoices1 & Hfiles1).
    destruct (add_voice_run upload2 "New Voice" w1 Hname)
      as (slug2 & k2 & voice2 & w2 & Hslug2 & Hk2 & Hrun2 & Hvoice2 & Hvoices2 & Hfiles2).
    rewrite slugify_new_voice in Hslug1, Hslug2.
    injection Hslug1 as <-. injection Hslug2 as <-.
    assert (k1 = 1) as ->.
    { destruct Hk1 as (Hge & _ & Hbusy).
      destruct (decide (k1 = 1)) as [|Hne]; [done|].
      destruct (Hbusy 1 ltac:(lia)) as [v Hv].
      change (candidate "new-voice" 1) with "new-voice" in Hv. congruence. }
    change (candidate "new-voice" 1) with "new-voice" in *.
    assert (k2 = 2) as ->.
    { destruct Hk2 as (Hge & Hnone & Hbusy).
      destruct (decide (k2 = 1)) as [->|Hne1].
      { change (candidate "new-voice" 1) with "new-voice" in Hnone.
        by rewrite Hvoices1, lookup_insert_eq in Hnone. }
      destruct (decide (k2 = 2)) as [|Hne2]; [done|].
      destruct (Hbusy 2 ltac:(lia)) as [v Hv].
      change (candidate "new-voice" 2) with "new-voice-2" in Hv.
      rewrite Hvoices1, lookup_insert_ne in Hv by done. congruence. }
    change (candidate "new-voice" 2) with "new-voice-2" in *.
    assert (_voices w2 !! "new-voice" = Some voice1) as Hin1.
    { by rewrite Hvoices2, lookup_insert_ne, Hvoices1, lookup_insert_eq. }
    assert (_voices w2 !! "new-voice-2" = Some voice2) as Hin2.
    { by rewrite Hvoices2, lookup_insert_eq. }
    exists voice1, w1, voice2, w2. split_and!; try done.
    + by rewrite Hvoice1.
    + by rewrite Hvoice2.
    + exists (values (_voices w2)). split; [done|].
      unfold values. split; apply list_elem_of_fmap.
      * exists ("new-voice", voice1). split; [done|]. by apply elem_of_map_to_list.
      * exists ("new-voice-2", voice2). split; [done|]. by apply elem_of_map_to_list.
    + by rewrite Hvoice1.
    + by rewrite Hvoice2.
    + cbn zeta. unfold backed. rewrite Hvoice1, Hvoice2. cbn [Voice.path].
      assert (Hjoin : forall vid fn,
                relative_text vid -> relative_text fn ->
                joinpath (Settings.voices_dir settings) (vid +:+ "/" +:+ fn)
                = joinpath (joinpath (Settings.voices_dir settings) vid) fn).
      { intros vid fn Hvid Hfn.
        rewrite (joinpath_relative _ fn Hfn), (joinpath_relative _ vid Hvid).
        rewrite (joinpath_relative _ (vid +:+ "/" +:+ fn)) by (by apply relative_text_app).
        by rewrite !app_assoc. }
      assert (relative_text "new-voice") as Hr1 by (by exists "n"%char, "ew-voice").
      assert (relative_text "new-voice-2") as Hr2 by (by exists "n"%char, "ew-voice-2").
      rewrite !Hjoin by (done || apply prompt_filename_relative).
      intros Htmp1 Htmp2. rewrite Hfiles2. split.
      * apply saved_files_keeps; [done|].
        destruct (decide (joinpath (joinpath (Settings.voices_dir settings) "new-voice-2")
                            (prompt_filename upload2)
                          = joinpath (joinpath (Settings.voices_dir settings) "new-voice")
                              (prompt_filename upload1))) as [->|Hne].
        { rewrite lookup_insert_eq. by eexists. }
        rewrite lookup_insert_ne by done. rewrite Hfiles1.
        apply saved_files_keeps; [done|]. rewrite lookup_insert_eq. by eexists.
      * apply saved_files_keeps; [done|]. rewrite lookup_insert_eq. by eexists.
Qed.

Lemma add_voice_blank upload voice_name w :
  all_chars isspace voice_name = true ->
  add_voice settings upload voice_name w
  = (Raise (HTTPException 400 "voice_name must not be empty"), w).
Proof.
  intros Hblank%strip_empty. unfold add_voice. by rewrite Hblank.
Qed.

(** C5. A display name that is empty or made of white space only makes
    [add_voice] raise the HTTP error 400 and leaves the world as it was:
    the registry in memory, the metadata file and every other file. *)
Theorem add_voice_blank_name upload voice_name w :
  all_chars isspace voice_name = true ->
  add_voice settings upload voice_name w
  = (Raise (HTTPException 400 "voice_name must not be empty"), w).
Proof.
  intros Hblank. unfold add_voice.
  assert (strip isspace voice_name = "") as -> by (by apply strip_empty).
  reflexivity.
Qed.

(** *** Loading *)



(** A load that raises leaves the registry as it was. *)
Lemma load_raise w e w' : _load settings w = (Raise e, w') -> w' = w.
Proof.
  unfold _load, exists_, read, gets, lift, modify, mbind, M_bind.
  destruct (files w !! Settings.metadata_path settings) as [c|] eqn:Hfile.
  - rewrite bool_decide_eq_true_2 by (by eexists). cbn [negb]. rewrite Hfile.
    destruct (json_loads c) as [data|]; [|by intros [= _ <-]].
    destruct (voices_items data); [done|by intros [= _ <-]].
  - rewrite bool_decide_eq_false_2 by (by intros [? ?]). done.
Qed.

Lemma load_step_consistent fs voices item :
  key_consistent voices -> key_consistent (load_step settings fs voices item).
Proof.
  intros Hcons. unfold load_step.
  destruct (Voice_validate item) as [voice|]; [|done].
  case_bool_decide; [|done].
  intros k v. rewrite lookup_insert. case_decide as Hk.
  - by intros [= <-].
  - by apply Hcons.
Qed.

Lemma foldl_load_consistent fs items voices :
  key_consistent voices ->
  key_consistent (foldl (load_step settings fs) voices items).
Proof.
  revert voices. induction items as [|item items IH]; intros voices Hcons; [done|].
  simpl. by apply IH, load_step_consistent.
Qed.

Lemma key_consistent_empty : key_consistent ∅.
Proof. intros k v. by rewrite lookup_empty. Qed.

Lemma key_consistent_insert voices (voice : Voice.t) :
  key_consistent voices ->
  key_consistent (<[Voice.id voice := voice]> voices).
Proof.
  intros Hcons k v. rewrite lookup_insert. case_decide.
  - by intros [= <-].
  - by apply Hcons.
Qed.


(** *** Saving, then loading *)





Lemma elem_of_values voices v :
  v ∈ values voices <-> exists k, voices !! k = Some v.
Proof.
  unfold values. rewrite list_elem_of_fmap. split.
  - intros ([k v'] & -> & Hin%elem_of_map_to_list). by exists k.
  - intros [k Hk]. exists (k, v). split; [done|]. by apply elem_of_map_to_list.
Qed.

Lemma values_ids voices :
  key_consistent voices -> Voice.id <$> values voices = (map_to_list voices).*1.
Proof.
  intros Hcons. unfold values. rewrite <- list_fmap_compose.
  apply list_fmap_ext. intros i [k v] Hi. simpl.
  apply Hcons. apply elem_of_map_to_list. by eapply list_elem_of_lookup_2.
Qed.



(** *** Seeding and bootstrap *)

Lemma split_no_sep sep s :
  Forall (fun x => all_chars (fun c => negb (is_char sep c)) x = true) (split sep s).
Proof.
  induction s as [|c s IH]; cbn [split]; [by repeat constructor|].
  case_decide as Hc.
  - by constructor.
  - assert (negb (is_char sep c) = true) as Hc'.
    { unfold is_char. by rewrite decide_False. }
    destruct (split sep s) as [|h t].
    + constructor; [|done]. cbn [all_chars]. by rewrite Hc'.
    + inversion_clear IH as [|?? Hh Ht].
      constructor; [|done]. cbn [all_chars]. by rewrite Hc', Hh.
Qed.


Lemma last_Forall {A} (P : A -> Prop) l d : P d -> Forall P l -> P (List.last l d).
Proof.
  intros Hd. induction 1 as [|x l Hx Hl IH]; [done|].
  cbn [List.last]. by destruct l.
Qed.

Lemma filter_Forall {A} (P : A -> Prop) (keep : A -> bool) l :
  Forall P l -> Forall P (List.filter keep l).
Proof.
  induction 1 as [|x l Hx Hl IH]; cbn [List.filter]; [done|].
  destruct (keep x); [by constructor|done].
Qed.









(** *** The keys of the registry *)

Lemma load_ok_consistent w w' :
  _load settings w = (Ok tt, w') -> key_consistent (_voices w').
Proof.
  unfold _load, exists_, read, gets, lift, modify, mbind, M_bind.
  destruct (files w !! Settings.metadata_path settings) as [c|] eqn:Hfile.
  - rewrite bool_decide_eq_true_2 by (by eexists). cbn [negb]. rewrite Hfile.
    destruct (json_loads c) as [data|]; [|done].
    destruct (voices_items data); [|done].
    intros [= <-]. apply foldl_load_consistent, key_consistent_empty.
  - rewrite bool_decide_eq_false_2 by (by intros [? ?]). cbn [negb].
    intros [= <-]. apply key_consistent_empty.
Qed.

Lemma load_consistent w :
  key_consistent (_voices w) -> key_consistent (_voices (_load settings w).2).
Proof.
  intros Hcons. destruct (_load settings w) as [[[]|e] w'] eqn:Hrun.
  - by eapply load_ok_consistent.
  - by rewrite (load_raise _ _ _ Hrun).
Qed.

Lemma save_voices w : _voices (_save settings w).2 = _voices w.
Proof. by rewrite save_run. Qed.

Lemma seed_consistent w :
  key_consistent (_voices w) ->
  key_consistent (_voices (_seed_default_voice settings w).2).
Proof.
  intros Hcons. unfold _seed_default_voice.
  destruct (Settings.default_voice_source settings) as [source|]; [|done].
  unfold exists_, gets, mkdir, copy2, read, write, modify, datetime_now, raise.
  unfold mbind, M_bind, mret, M_ret.
  destruct (files w !! source) as [c|] eqn:Hfile.
  - rewrite bool_decide_eq_true_2 by (by eexists). cbn [negb]. rewrite Hfile.
    destruct (relative_to _ _) as [rel|]; [|done].
    rewrite save_run. cbn [snd _voices set_files set_voices set_ticks].
    apply (key_consistent_insert _ (Voice.mk _ _ _ _)), Hcons.
  - by rewrite bool_decide_eq_false_2 by (by intros [? ?]).
Qed.

Lemma register_voice_consistent voice_id name file_path w :
  key_consistent (_voices w) ->
  key_consistent (_voices (register_voice settings voice_id name file_path w).2).
Proof.
  intros Hcons.
  destruct (relative_to file_path (Settings.voices_dir settings)) as [rel|] eqn:Hrel.
  - rewrite (register_voice_run _ _ _ _ _ Hrel).
    apply (key_consistent_insert _ (Voice.mk _ _ _ _)), Hcons.
  - unfold register_voice. by rewrite Hrel.
Qed.

Lemma add_voice_consistent upload voice_name w :
  key_consistent (_voices w) ->
  key_consistent (_voices (add_voice settings upload voice_name w).2).
Proof.
  intros Hcons. destruct (decide (strip isspace voice_name = "")) as [Hblank|Hname].
  - apply strip_empty in Hblank. by rewrite add_voice_blank.
  - destruct (add_voice_run upload voice_name w Hname)
      as (slug & k & voice & w' & _ & _ & Hrun & Hvoice & Hvoices & _).
    rewrite Hrun. cbn [snd]. rewrite Hvoices.
    replace (candidate slug k) with (Voice.id voice) by (by rewrite Hvoice).
    by apply key_consistent_insert.
Qed.

Lemma bootstrap_consistent w :
  key_consistent (_voices w) ->
  key_consistent (_voices (bootstrap settings w).2).
Proof.
  intros Hcons. unfold bootstrap.
  rewrite (bind_ok _ _ w tt w) by done.
  pose proof (load_consistent w Hcons) as Hload.
  unfold mbind at 1, M_bind at 1.
  destruct (_load settings w) as [[[]|e] w1]; [|done].
  cbn [snd] in Hload. unfold gets, mbind, M_bind.
  case_bool_decide; [by apply seed_consistent|done].
Qed.

End Runs.

End RegistryFacts.

(** ** What a computation leaves alone *)

Module FrameFacts.
Import PyStr Paths Eff Process.

#[export] Instance same_voices_preorder : PreOrder same_voices.
Proof. split; unfold same_voices; [by intros w|intros w1 w2 w3; congruence]. Qed.

#[export] Instance same_files_preorder : PreOrder same_files.
Proof. split; unfold same_files; [by intros w|intros w1 w2 w3; congruence]. Qed.

#[export] Instance same_trace_preorder : PreOrder same_trace.
Proof. split; unfold same_trace; [by intros w|intros w1 w2 w3; congruence]. Qed.

#[export] Instance grown_preorder quiet : PreOrder (grown quiet).
Proof.
  split.
  - intros w. exists []. by rewrite app_nil_r.
  - intros w1 w2 w3 (e1 & H1 & Hq1) (e2 & H2 & Hq2). exists (e1 ++ e2)%list.
    split; [by rewrite H2, H1, app_assoc|by apply Forall_app].
Qed.

Section Respects.
Context (R : World -> World -> Prop) `{!PreOrder R}.

Lemma rs_ret {A} (a : A) : respects R (mret a).
Proof. by intros w. Qed.

Lemma rs_raise {A} (e : exn) : respects R (@raise A e).
Proof. by intros w. Qed.

Lemma rs_gets {A} (f : World -> A) : respects R (gets f).
Proof. by intros w. Qed.

Lemma rs_lift {A} (r : result A) : respects R (lift r).
Proof. by intros w. Qed.

Lemma rs_bind {A B} (m : M A) (f : A -> M B) :
  respects R m -> (forall a, respects R (f a)) -> respects R (m ≫= f).
Proof.
  intros Hm Hf w. unfold mbind, M_bind. specialize (Hm w).
  destruct (m w) as [[a|e] w1]; [|done].
  cbn [snd] in Hm. etrans; [exact Hm|apply Hf].
Qed.

Lemma rs_try_except {A} (body : M A) (handler : exn -> M A) :
  respects R body -> (forall e, respects R (handler e)) ->
  respects R (try_except body handler).
Proof.
  intros Hb Hh w. unfold try_except. specialize (Hb w).
  destruct (body w) as [[a|e] w1]; [done|].
  cbn [snd] in Hb. etrans; [exact Hb|apply Hh].
Qed.

Lemma rs_try_finally {A} (body : M A) (cleanup : M unit) :
  respects R body -> respects R cleanup ->
  respects R (try_finally body cleanup).
Proof.
  intros Hb Hc w. unfold try_finally. specialize (Hb w).
  destruct (body w) as [r w1]. specialize (Hc w1).
  destruct (cleanup w1) as [[[]|e] w2]; cbn [snd] in *; by etrans.
Qed.

Lemma rs_modify (f : World -> World) :
  (forall w, R w (f w)) -> respects R (modify f).
Proof. intros Hf w. apply Hf. Qed.

Lemma rs_call {A} (ev : event) (callee : M A) :
  admits R ev -> respects R callee -> respects R (call ev callee).
Proof. intros Hev Hc. unfold call. apply rs_bind; [by apply rs_modify|done]. Qed.

Lemma rs_exists p : respects R (exists_ p).
Proof. apply rs_gets. Qed.

Lemma rs_read p : respects R (read p).
Proof. intros w. unfold read. by destruct (files w !! p). Qed.

Lemma rs_mkdir p : respects R (mkdir p).
Proof. apply rs_ret. Qed.

Lemma rs_write p c : ignores_files R -> respects R (write p c).
Proof. intros Hfiles. apply rs_modify, Hfiles. Qed.

Lemma rs_unlink p : ignores_files R -> respects R (unlink_missing_ok p).
Proof. intros Hfiles. apply rs_modify, Hfiles. Qed.

Lemma rs_replace src dst : ignores_files R -> respects R (replace src dst).
Proof.
  intros Hfiles w. unfold replace. destruct (files w !! src); [apply Hfiles|done].
Qed.

Lemma rs_set_model m : ignores_model R -> respects R (modify (set_model m)).
Proof. intros Hmodel. apply rs_modify, Hmodel. Qed.

(** From a relation to a triple: what [R] carries from the world before
    to the world after holds after [m]. *)
Lemma respects_hoare {A} (m : M A) (P P' : World -> Prop) :
  respects R m -> (forall w w', R w w' -> P w -> P' w') ->
  hoare P m (fun _ w => P' w).
Proof. intros Hm HP w Hw. exact (HP w _ (Hm w) Hw). Qed.

End Respects.

(** *** Rules of the triples *)

Lemma hoare_conseq {A} (P P' : World -> Prop) (m : M A) (Q Q' : result A -> World -> Prop) :
  hoare P' m Q' -> (forall w, P w -> P' w) -> (forall r w, Q' r w -> Q r w) ->
  hoare P m Q.
Proof. intros Hm HP HQ w Hw. by apply HQ, Hm, HP. Qed.

Lemma hoare_ret {A} (P : World -> Prop) (a : A) (Q : result A -> World -> Prop) :
  (forall w, P w -> Q (Ok a) w) -> hoare P (mret a) Q.
Proof. intros HQ w Hw. by apply HQ. Qed.

Lemma hoare_raise {A} (P : World -> Prop) (e : exn) (Q : result A -> World -> Prop) :
  (forall w, P w -> Q (Raise e) w) -> hoare P (raise e) Q.
Proof. intros HQ w Hw. by apply HQ. Qed.

Lemma hoare_bind {A B} (P : World -> Prop) (P' : A -> World -> Prop)
    (m : M A) (f : A -> M B) (Q : result B -> World -> Prop) :
  hoare P m (fun r w => match r with Ok a => P' a w | Raise e => Q (Raise e) w end) ->
  (forall a, hoare (P' a) (f a) Q) ->
  hoare P (m ≫= f) Q.
Proof.
  intros Hm Hf w Hw. specialize (Hm w Hw). unfold mbind, M_bind.
  destruct (m w) as [[a|e] w1]; cbn [fst snd] in Hm; [|done].
  by apply Hf.
Qed.

(** The bind of a step that keeps the invariant [I], when a raise under
    [I] is an outcome that [Q] admits. *)
Lemma hoare_bind_inv {A B} (I : World -> Prop) (m : M A) (f : A -> M B)
    (Q : result B -> World -> Prop) :
  hoare I m (fun _ w => I w) ->
  (forall e w, I w -> Q (Raise e) w) ->
  (forall a, hoare I (f a) Q) ->
  hoare I (m ≫= f) Q.
Proof.
  intros Hm Hraise Hf. apply hoare_bind with (P' := fun _ => I); [|done].
  intros w Hw. specialize (Hm w Hw). destruct (m w) as [[a|e] w1]; cbn in *; auto.
Qed.

Lemma hoare_gets {A} (P : World -> Prop) (f : World -> A) (Q : result A -> World -> Prop) :
  (forall w, P w -> Q (Ok (f w)) w) -> hoare P (gets f) Q.
Proof. intros HQ w Hw. by apply HQ. Qed.

Lemma hoare_modify (P : World -> Prop) (f : World -> World) (Q : result unit -> World -> Prop) :
  (forall w, P w -> Q (Ok tt) (f w)) -> hoare P (modify f) Q.
Proof. intros HQ w Hw. by apply HQ. Qed.


Lemma hoare_read (P : World -> Prop) (p : string) (Q : result content -> World -> Prop) :
  (forall w c, P w -> files w !! p = Some c -> Q (Ok c) w) ->
  (forall w, P w -> files w !! p = None -> Q (Raise (FileNotFoundError p)) w) ->
  hoare P (read p) Q.
Proof.
  intros Hsome Hnone w Hw. unfold read.
  destruct (files w !! p) as [c|] eqn:Hp; [by apply Hsome|by apply Hnone].
Qed.

Lemma hoare_call {A} (P P' : World -> Prop) (ev : event) (callee : M A)
    (Q : result A -> World -> Prop) :
  (forall w, P w -> P' (set_trace (fun t => (t ++ [ev])%list) w)) ->
  hoare P' callee Q -> hoare P (call ev callee) Q.
Proof. intros Hev Hc w Hw. unfold call, modify, mbind, M_bind. by apply Hc, Hev. Qed.

Lemma hoare_try_except {A} (P : World -> Prop) (P' : exn -> World -> Prop)
    (body : M A) (handler : exn -> M A) (Q : result A -> World -> Prop) :
  hoare P body (fun r w => match r with Ok a => Q (Ok a) w | Raise e => P' e w end) ->
  (forall e, hoare (P' e) (handler e) Q) ->
  hoare P (try_except body handler) Q.
Proof.
  intros Hb Hh w Hw. specialize (Hb w Hw). unfold try_except.
  destruct (body w) as [[a|e] w1]; cbn [fst snd] in Hb; [done|].
  by apply Hh.
Qed.

Lemma hoare_try_finally {A} (P : World -> Prop) (Q1 : result A -> World -> Prop)
    (body : M A) (cleanup : M unit) (Q : result A -> World -> Prop) :
  hoare P body Q1 ->
  (forall r, hoare (Q1 r) cleanup
               (fun rc w => match rc with Ok _ => Q r w | Raise e => Q (Raise e) w end)) ->
  hoare P (try_finally body cleanup) Q.
Proof.
  intros Hb Hc w Hw. specialize (Hb w Hw). unfold try_finally.
  destruct (body w) as [r w1]. cbn [fst snd] in Hb.
  specialize (Hc r w1 Hb). by destruct (cleanup w1) as [[[]|e] w2].
Qed.

(** *** The services *)

(** One step of a proof of [respects R m], chosen by the shape of [m];
    the conditions on [R] are taken from the hypotheses. *)
Ltac respects_step R :=
  first
    [ solve [auto]
    | apply (rs_ret R) | apply (rs_raise R) | apply (rs_gets R) | apply (rs_lift R)
    | apply (rs_exists R) | apply (rs_read R) | apply (rs_mkdir R)
    | apply (rs_write R); solve [auto]
    | apply (rs_unlink R); solve [auto]
    | apply (rs_replace R); solve [auto]
    | apply (rs_set_model R); solve [auto]
    | apply (rs_call R); [solve [auto]|]
    | apply (rs_try_except R); [|intros ?]
    | apply (rs_try_finally R)
    | apply (rs_bind R); [|intros ?]
    | match goal with
      | |- respects _ (match ?x with _ => _ end) => destruct x
      | |- respects _ (if ?b then _ else _) => destruct b
      end ].

Ltac respects_all R := repeat respects_step R.

Section Services.
Context `{Platform} `{Synthesizer} `{AudioLib} (settings : Settings.t).
Context (R : World -> World -> Prop) `{!PreOrder R}.

Lemma rs_get_voice voice_id :
  respects R (VoiceManager.get_voice settings voice_id).
Proof.
  intros w. unfold VoiceManager.get_voice, gets, mbind, M_bind.
  by destruct (_voices w !! _).
Qed.

Lemma rs_absolute_voice_path voice :
  respects R (VoiceManager.absolute_voice_path settings voice).
Proof. unfold VoiceManager.absolute_voice_path. respects_all R. Qed.

Lemma rs_ensure_directories :
  respects R (VoiceManager.ensure_directories settings).
Proof. by intros w. Qed.

Lemma rs_ensure_model_loaded :
  ignores_model R -> admits R CallImport -> admits R CallConstruct ->
  respects R (TTSService.ensure_model_loaded settings).
Proof.
  intros Hmodel Himport Hconstruct. pose proof rs_ensure_directories.
  unfold TTSService.ensure_model_loaded, TTSService.load_model. respects_all R.
Qed.

Lemma rs_soundfile_write destination y sr :
  ignores_files R -> respects R (Audio.soundfile_write destination y sr).
Proof.
  intros Hfiles w. unfold Audio.soundfile_write.
  destruct (sf_write _ _ _) as [r after]. apply Hfiles.
Qed.

Lemma rs_apply_speed_and_pitch source destination speed pitch :
  ignores_files R ->
  respects R (Audio.apply_speed_and_pitch source destination speed pitch).
Proof.
  intros Hfiles.
  pose proof (fun destination y sr => rs_soundfile_write destination y sr Hfiles).
  unfold Audio.apply_speed_and_pitch. respects_all R.
Qed.

Lemma rs_call_infer model prompt text output_path :
  ignores_files R -> admits R (CallInfer prompt text output_path) ->
  respects R (TTSService.call_infer model prompt text output_path).
Proof.
  intros Hfiles Hev. unfold TTSService.call_infer.
  apply (rs_call R); [done|]. intros w.
  destruct (infer _ _ _ _ _) as [r fs]. apply Hfiles.
Qed.

Lemma rs_generate_delivery unique_id payload voice generated_path :
  ignores_files R -> (forall ev, admits R ev) ->
  respects R (TTSService.generate_delivery settings unique_id payload voice generated_path).
Proof.
  intros Hfiles Hev.
  pose proof (fun src dst sp pi => rs_apply_speed_and_pitch src dst sp pi Hfiles).
  unfold TTSService.generate_delivery. cbn zeta. respects_all R.
Qed.

Lemma rs_generate_synthesis unique_id payload voice voice_path model :
  ignores_files R -> (forall ev, admits R ev) ->
  respects R (TTSService.generate_synthesis settings unique_id payload voice voice_path model).
Proof.
  intros Hfiles Hev.
  pose proof (fun model prompt text out =>
                rs_call_infer model prompt text out Hfiles (Hev _)).
  pose proof (fun voice gp => rs_generate_delivery unique_id payload voice gp Hfiles Hev).
  unfold TTSService.generate_synthesis. cbn zeta. respects_all R.
Qed.

(** The steps of [generate] after the lookup of the voice. *)
Lemma rs_generate_after_lookup unique_id payload voice :
  ignores_model R -> ignores_files R -> (forall ev, admits R ev) ->
  respects R
    (voice_path ← call (CallAbsoluteVoicePath voice)
                   (VoiceManager.absolute_voice_path settings voice);
     _ ← TTSService.ensure_model_loaded settings;
     m ← gets _model;
     match m with
     | None => raise (HTTPException 500 "Model failed to load")
     | Some model =>
         TTSService.generate_synthesis settings unique_id payload voice voice_path model
     end).
Proof.
  intros Hmodel Hfiles Hev.
  pose proof rs_absolute_voice_path.
  pose proof (rs_ensure_model_loaded Hmodel (Hev _) (Hev _)).
  pose proof (fun voice voice_path model =>
                rs_generate_synthesis unique_id payload voice voice_path model Hfiles Hev).
  respects_all R.
Qed.

Lemma rs_generate unique_id payload :
  ignores_model R -> ignores_files R -> (forall ev, admits R ev) ->
  respects R (TTSService.generate settings unique_id payload).
Proof.
  intros Hmodel Hfiles Hev.
  pose proof rs_get_voice.
  pose proof (fun voice => rs_generate_after_lookup unique_id payload voice Hmodel Hfiles Hev).
  change (TTSService.generate settings unique_id payload)
    with (if falsy (GenerateRequest.text payload)
             || falsy (strip isspace (GenerateRequest.text payload))
          then raise (HTTPException 400 "text must not be empty")
          else
            call (CallGetVoice (GenerateRequest.voice_id payload))
              (VoiceManager.get_voice settings (GenerateRequest.voice_id payload))
            ≫= fun voice =>
                 voice_path ← call (CallAbsoluteVoicePath voice)
                                (VoiceManager.absolute_voice_path settings voice);
                 _ ← TTSService.ensure_model_loaded settings;
                 m ← gets _model;
                 match m with
                 | None => raise (HTTPException 500 "Model failed to load")
                 | Some model =>
                     TTSService.generate_synthesis settings unique_id payload
                       voice voice_path model
                 end).
  respects_all R.
Qed.

End Services.

Lemma reachable_consistent `{Platform} `{Synthesizer} `{AudioLib}
    (settings : Settings.t) w :
  reachable settings w -> VoiceManager.key_consistent (_voices w).
Proof.
  induction 1 as [w|r w Hw IH|fs w Hw IH].
  - unfold VoiceManager.__init__, modify, mbind, M_bind.
    apply RegistryFacts.bootstrap_consistent, RegistryFacts.key_consistent_empty.
  - destruct r; cbn [serve].
    + by apply RegistryFacts.bootstrap_consistent.
    + by apply RegistryFacts.load_consistent.
    + by rewrite RegistryFacts.save_voices.
    + by apply RegistryFacts.seed_consistent.
    + done.
    + by rewrite (rs_get_voice settings same_voices voice_id w).
    + by apply RegistryFacts.register_voice_consistent.
    + by apply RegistryFacts.add_voice_consistent.
    + by rewrite (rs_absolute_voice_path settings same_voices voice w).
    + by rewrite (rs_ensure_model_loaded settings same_voices).
    + by rewrite (rs_generate settings same_voices).
  - done.
Qed.

(** C9. In every world of a running service each key of the registry in
    memory is the [id] of the voice stored under it.  A load that
    returns establishes this whatever the registry held before, seeding
    an empty registry establishes it, and [_seed_default_voice],
    [register_voice] and [add_voice] keep it, whether they return or
    raise. *)
Theorem registry_keys_consistent `{Platform} `{Synthesizer} `{AudioLib}
    (settings : Settings.t) :
  (forall w, reachable settings w -> VoiceManager.key_consistent (_voices w)) /\
  (forall w w',
     VoiceManager._load settings w = (Ok tt, w') ->
     VoiceManager.key_consistent (_voices w')) /\
  (forall w,
     _voices w = ∅ ->
     VoiceManager.key_consistent
       (_voices (VoiceManager._seed_default_voice settings w).2)) /\
  (forall w,
     VoiceManager.key_consistent (_voices w) ->
     VoiceManager.key_consistent
       (_voices (VoiceManager._seed_default_voice settings w).2)) /\
  (forall voice_id name file_path w,
     VoiceManager.key_consistent (_voices w) ->
     VoiceManager.key_consistent
       (_voices (VoiceManager.register_voice settings voice_id name file_path w).2)) /\
  (forall upload voice_name w,
     VoiceManager.key_consistent (_voices w) ->
     VoiceManager.key_consistent
       (_voices (VoiceManager.add_voice settings upload voice_name w).2)).
Proof.
  split_and!.
  - apply reachable_consistent.
  - apply RegistryFacts.load_ok_consistent.
  - intros w Hempty. apply RegistryFacts.seed_consistent.
    rewrite Hempty. apply RegistryFacts.key_consistent_empty.
  - apply RegistryFacts.seed_consistent.
  - intros. by apply RegistryFacts.register_voice_consistent.
  - intros. by apply RegistryFacts.add_voice_consistent.
Qed.

End FrameFacts.

(** ** The synthesis orchestrator *)

Module ServiceFacts.
Import PyStr PyStrFacts Paths Json Eff VoiceManager Audio TTSService Process FrameFacts.

Lemma constructions_snoc t ev :
  constructions (t ++ [ev]) = constructions t + (if is_construct ev then 1 else 0).
Proof.
  unfold constructions. rewrite List.filter_app, List.length_app. simpl.
  by destruct (is_construct ev).
Qed.


Section Model.
Context `{Platform} `{Synthesizer} `{AudioLib} (settings : Settings.t).

Lemma load_model_run w :
  load_model settings w =
  let w1 := set_trace (fun t => (t ++ [CallImport])%list) w in
  match import_IndexTTS2 (imports (trace w)) with
  | Some exc => (Raise (HTTPException 500 ("Failed to import IndexTTS2: " +:+ exc)), w1)
  | None =>
      let w2 := set_trace (fun t => (t ++ [CallConstruct])%list) w1 in
      match IndexTTS2 (constructions (trace w1)) settings with
      | Ok model => (Ok tt, set_model model w2)
      | Raise e => (Raise e, w2)
      end
  end.
Proof.
  unfold load_model, call, gets, modify, lift, raise, mbind, M_bind, mret, M_ret.
  cbn [ensure_directories mkdir].
  destruct (import_IndexTTS2 _); [done|].
  unfold ensure_directories, mkdir, mbind, M_bind, mret, M_ret.
  by destruct (IndexTTS2 _ _).
Qed.

Lemma ensure_model_loaded_run w :
  ensure_model_loaded settings w =
  match _model w with
  | Some _ => (Ok tt, w)
  | None => load_model settings w
  end.
Proof.
  unfold ensure_model_loaded, gets, mbind, M_bind, mret, M_ret.
  destruct (_model w) eqn:Hm; [done|]. by rewrite Hm.
Qed.


End Model.

(** *** [generate] *)

Lemma not_absolute_relative s t :
  is_absolute s = false -> relative_text t -> relative_text (s +:+ t).
Proof.
  intros Hs Ht. destruct s as [|c r]; [done|].
  exists c, (r +:+ t). split; [done|]. intros ->. by destruct r.
Qed.


Section Generate.
Context `{Platform} `{Synthesizer} `{AudioLib} (settings : Settings.t).

Lemma final_output_text unique_id :
  is_absolute unique_id = false ->
  final_output settings unique_id = Settings.output_dir settings +:+ "/" +:+ final_name unique_id.
Proof.
  intros Hid. apply RegistryFacts.joinpath_relative, not_absolute_relative; [done|].
  by exists "."%char, "wav".
Qed.



Lemma final_output_relative unique_id :
  is_absolute unique_id = false ->
  relative_to (final_output settings unique_id) (Settings.output_dir settings)
  = Some (final_name unique_id).
Proof.
  intros Hid. rewrite final_output_text by done.
  apply RegistryFacts.relative_to_below. unfold final_name. by destruct unique_id.
Qed.

Lemma generate_unfold unique_id payload :
  generate settings unique_id payload =
  let text := GenerateRequest.text payload in
  if falsy text || falsy (strip isspace text)
  then raise (HTTPException 400 "text must not be empty")
  else
    voice ← call (CallGetVoice (GenerateRequest.voice_id payload))
              (get_voice settings (GenerateRequest.voice_id payload));
    voice_path ← call (CallAbsoluteVoicePath voice) (absolute_voice_path settings voice);
    _ ← ensure_model_loaded settings;
    m ← gets _model;
    match m with
    | None => raise (HTTPException 500 "Model failed to load")
    | Some model => generate_synthesis settings unique_id payload voice voice_path model
    end.
Proof. reflexivity. Qed.

Lemma blank_text text :
  falsy text || falsy (strip isspace text) = true <-> all_chars isspace text = true.
Proof.
  rewrite orb_true_iff, !falsy_spec, strip_empty. split; [|by right].
  intros [->|?]; done.
Qed.

(** The steps of [generate] before the model is called keep every
    invariant that a relation carries, when the relation is blind to the
    model and lets the lookups and the load into the trace. *)
Lemma hoare_generate (R : World -> World -> Prop) `{!PreOrder R}
    (I : World -> Prop) (Q : result GenerateResponse.t -> World -> Prop)
    unique_id payload :
  ignores_model R ->
  (forall ev, ~ is_infer ev -> ~ is_post_process ev -> admits R ev) ->
  (forall w w', R w w' -> I w -> I w') ->
  (forall e w, I w -> Q (Raise e) w) ->
  (forall voice voice_path model,
     hoare I (generate_synthesis settings unique_id payload voice voice_path model) Q) ->
  hoare I (generate settings unique_id payload) Q.
Proof.
  intros Hmodel Hev HI Hraise Htail. rewrite generate_unfold. cbn zeta.
  destruct (_ || _); [apply hoare_raise, Hraise|].
  apply hoare_bind_inv; [|done|intros voice].
  { apply (respects_hoare R); [|done].
    apply (rs_call R); [apply Hev; intros []|apply rs_get_voice; done]. }
  apply hoare_bind_inv; [|done|intros voice_path].
  { apply (respects_hoare R); [|done].
    apply (rs_call R); [apply Hev; intros []|apply rs_absolute_voice_path; done]. }
  apply hoare_bind_inv; [|done|intros _].
  { apply (respects_hoare R); [|done].
    apply rs_ensure_model_loaded; [done|done|apply Hev; intros []..]. }
  apply hoare_bind_inv; [|done|intros [model|]].
  { apply hoare_gets. by intros w Hw. }
  - apply Htail.
  - apply hoare_raise, Hraise.
Qed.


(** C6. A request whose text is empty or white space only makes
    [generate] raise the HTTP error 400 and leaves the world as it was,
    the trace of calls included: no voice was looked up, no model
    loaded, no synthesis and no post-processing called.  For any other
    text the first call that [generate] makes is the lookup of the
    voice, and it is in the trace. *)
Theorem generate_blank_text :
  (forall unique_id payload w,
     all_chars isspace (GenerateRequest.text payload) = true ->
     generate settings unique_id payload w
     = (Raise (HTTPException 400 "text must not be empty"), w)) /\
  (forall unique_id payload w,
     all_chars isspace (GenerateRequest.text payload) = false ->
     exists evs,
       trace (generate settings unique_id payload w).2
       = (trace w ++ CallGetVoice (GenerateRequest.voice_id payload) :: evs)%list).
Proof.
  split.
  - intros unique_id payload w Hblank%blank_text.
    rewrite generate_unfold. cbn zeta. by rewrite Hblank.
  - intros unique_id payload w Htext.
    set (ev := CallGetVoice (GenerateRequest.voice_id payload)).
    set (anyhow := grown (fun _ => True)).
    assert (Hmodel : ignores_model anyhow).
    { intros m w1. by exists []; rewrite List.app_nil_r. }
    assert (Hfiles : ignores_files anyhow).
    { intros f w1. by exists []; rewrite List.app_nil_r. }
    assert (Hev : forall ev', admits anyhow ev').
    { intros ev' w1. exists [ev']. split; [done|by repeat constructor]. }
    rewrite generate_unfold. cbn zeta.
    destruct (_ || _) eqn:Hblank; [apply blank_text in Hblank; congruence|].
    match goal with
    | |- context [(mbind ?f (call ?e ?m)) w] =>
        change ((mbind f (call e m)) w)
          with ((mbind f m) (set_trace (fun t => (t ++ [ev])%list) w));
        assert (Hrest : respects anyhow (mbind f m))
    end.
    { apply (rs_bind anyhow); [apply (rs_get_voice settings anyhow)|]. intros voice.
      by apply (rs_generate_after_lookup settings anyhow). }
    destruct (Hrest (set_trace (fun t => (t ++ [ev])%list) w)) as (evs & Hevs & _).
    exists evs. rewrite Hevs. cbn [trace set_trace]. by rewrite <- List.app_assoc.
Qed.

(** *** The final output path *)





(** *** The raw output *)

Lemma grown_quiet_files f w0 w :
  grown quiet w0 w -> grown quiet w0 (set_files f w).
Proof. done. Qed.

Lemma grown_quiet_event ev w0 w :
  quiet ev -> grown quiet w0 w ->
  grown quiet w0 (set_trace (fun t => (t ++ [ev])%list) w).
Proof.
  intros Hev (evs & Ht & Hq). exists (evs ++ [ev])%list. cbn [trace set_trace].
  split; [by rewrite Ht, List.app_assoc|].
  apply Forall_app. split; [done|by constructor].
Qed.

(** The last steps of [generate]: where the post-processor is called,
    the generated path is off the disk afterwards, whether the
    post-processor returned or raised. *)
Lemma generate_delivery_trace w0 unique_id payload voice generated_path :
  let ev := CallPostProcess generated_path (final_output settings unique_id)
              (GenerateRequest.speed payload) (GenerateRequest.pitch payload) in
  hoare (grown quiet w0)
    (generate_delivery settings unique_id payload voice generated_path)
    (fun _ w =>
       grown quiet w0 w \/
       (beyond_tolerance (GenerateRequest.speed payload) (GenerateRequest.pitch payload)
        = true /\ processed w0 ev generated_path w)).
Proof.
  intros ev. unfold generate_delivery. cbn zeta.
  fold (final_output settings unique_id). fold ev.
  set (J := fun w =>
              grown quiet w0 w \/
              (beyond_tolerance (GenerateRequest.speed payload)
                 (GenerateRequest.pitch payload) = true /\
               processed w0 ev generated_path w)).
  apply hoare_bind with (P' := fun _ => J).
  - destruct (beyond_tolerance _ _) eqn:Hbeyond.
    + apply hoare_try_finally
        with (Q1 := fun _ w =>
                      exists evs, Forall quiet evs /\
                                  trace w = (trace w0 ++ evs ++ [ev])%list).
      * apply hoare_bind
          with (P' := fun _ w => exists evs, Forall quiet evs /\
                                             trace w = (trace w0 ++ evs ++ [ev])%list).
        -- intros w (evs & Ht & Hq).
           assert (exists evs', Forall quiet evs' /\
                     trace (call ev (apply_speed_and_pitch generated_path
                                       (final_output settings unique_id)
                                       (GenerateRequest.speed payload)
                                       (GenerateRequest.pitch payload)) w).2
                     = (trace w0 ++ evs' ++ [ev])%list) as Hafter.
           { unfold call, modify, mbind, M_bind.
             pose proof (rs_apply_speed_and_pitch same_trace generated_path
                           (final_output settings unique_id)
                           (GenerateRequest.speed payload)
                           (GenerateRequest.pitch payload)
                           (fun _ _ => eq_refl)
                           (set_trace (fun t => (t ++ [ev])%list) w)) as Hsame.
             unfold same_trace in Hsame. rewrite Hsame. cbn [trace set_trace].
             exists evs. split; [done|]. by rewrite Ht, List.app_assoc. }
           by destruct (call ev _ w) as [[a|e] w1].
        -- intros _. by apply hoare_ret.
      * intros r. apply hoare_modify. intros w Hw. cbn [set_files].
        assert (J (set_files (delete generated_path) w)) as HJ.
        { right. split; [done|]. split; [exact Hw|].
          cbn [files set_files]. apply lookup_delete_eq. }
        by destruct r.
    + intros w Hw.
      assert (grown quiet w (replace generated_path (final_output settings unique_id) w).2)
        as Hstep.
      { apply (rs_replace (grown quiet)). intros f w1. by exists []; rewrite List.app_nil_r. }
      assert (J (replace generated_path (final_output settings unique_id) w).2) as HJ.
      { left. by etrans. }
      by destruct (replace _ _ w) as [[[]|e] w1].
  - intros _. destruct (relative_to _ _); [by apply hoare_ret|by apply hoare_raise].
Qed.

(** C10. If [generate] has called the post-processor, which it does
    only for a speed or pitch beyond the tolerance and with the path
    the model returned as the source, then that path is not on the disk
    when [generate] ends, whether it returns or raises.  A model that
    returns the output path it was given has returned the raw scratch
    path, so the raw scratch path is not on the disk then. *)
Theorem generate_removes_raw unique_id payload w r w' evs
    source destination speed pitch :
  generate settings unique_id payload w = (r, w') ->
  trace w' = (trace w ++ evs)%list ->
  CallPostProcess source destination speed pitch ∈ evs ->
  files w' !! source = None /\
  beyond_tolerance (GenerateRequest.speed payload) (GenerateRequest.pitch payload) = true /\
  destination = final_output settings unique_id /\
  (returns_output_path ->
   source = raw_output settings unique_id /\
   files w' !! raw_output settings unique_id = None).
Proof.
  intros Hrun Htrace Hev.
  set (Q := fun (_ : result GenerateResponse.t) w1 =>
              grown quiet w w1 \/
              exists generated_path,
                (returns_output_path -> generated_path = raw_output settings unique_id) /\
                beyond_tolerance (GenerateRequest.speed payload)
                  (GenerateRequest.pitch payload) = true /\
                processed w
                  (CallPostProcess generated_path (final_output settings unique_id)
                     (GenerateRequest.speed payload) (GenerateRequest.pitch payload))
                  generated_path w1).
  assert (Hgen : hoare (grown quiet w) (generate settings unique_id payload) Q).
  { apply (hoare_generate (grown quiet)).
    - intros m w1. by exists []; rewrite List.app_nil_r.
    - intros ev _ Hquiet w1. exists [ev]. split; [done|by constructor].
    - intros w1 w2 Hw12 Hw1. by etrans.
    - intros e w1 Hw1. by left.
    - intros voice voice_path model. unfold generate_synthesis. cbn zeta.
      fold (raw_output settings unique_id).
      apply hoare_bind_inv; [by apply hoare_ret|by left|intros _].
      apply hoare_bind
        with (P' := fun (g : option string) w1 =>
                      grown quiet w w1 /\
                      (returns_output_path ->
                       forall p, g = Some p -> p = raw_output settings unique_id)).
      + apply hoare_try_except with (P' := fun _ => grown quiet w).
        * unfold call_infer. apply hoare_call with (P' := grown quiet w).
          { intros w1 Hw1. apply grown_quiet_event; [|done]. by intros []. }
          intros w1 Hw1.
          destruct (infer model voice_path (GenerateRequest.text payload)
                      (raw_output settings unique_id) (files w1)) as [ri fs] eqn:Hinfer.
          cbn [fst snd]. destruct ri as [g|e]; [|done].
          split; [done|]. intros Hret p ->.
          apply (Hret model voice_path (GenerateRequest.text payload) _ (files w1)).
          by rewrite Hinfer.
        * intros e. apply hoare_raise. by left.
      + intros [generated_path|]; [|apply hoare_raise; by intros w1 [? _]; left].
        intros w1 [Hw1 Hpath].
        assert (Hgp : returns_output_path ->
                      generated_path = raw_output settings unique_id) by auto.
        match goal with
        | |- _ (?m w1).1 (?m w1).2 =>
            cut (hoare (grown quiet w) m Q); [intros Hrest; apply Hrest, Hw1|]
        end.
        clear w1 Hw1 Hpath.
        apply hoare_bind_inv; [|by left|intros present].
        { destruct (falsy generated_path); [by apply hoare_ret|by apply hoare_gets]. }
        destruct (negb present); [apply hoare_raise; by left|].
        apply hoare_conseq
          with (P' := grown quiet w)
               (Q' := fun _ w1 =>
                        grown quiet w w1 \/
                        (beyond_tolerance (GenerateRequest.speed payload)
                           (GenerateRequest.pitch payload) = true /\
                         processed w
                           (CallPostProcess generated_path (final_output settings unique_id)
                              (GenerateRequest.speed payload)
                              (GenerateRequest.pitch payload))
                           generated_path w1));
          [apply generate_delivery_trace|done|].
        intros r1 w1 [Hw1|[Hbeyond Hdone]]; [by left|right].
        by exists generated_path. }
  assert (HQ : Q r w').
  { pose proof (Hgen w ltac:(reflexivity)) as HQ. by rewrite Hrun in HQ. }
  destruct HQ as [(evs0 & Ht0 & Hq0)|(generated_path & Hgp & Hbeyond & (evs0 & Hq0 & Ht0) & Hgone)].
  - rewrite Htrace in Ht0. apply app_inv_head in Ht0. subst evs0.
    rewrite Forall_forall in Hq0. by destruct (Hq0 _ Hev).
  - rewrite Htrace in Ht0. apply app_inv_head in Ht0. subst evs.
    apply elem_of_app in Hev as [Hev|Hev%list_elem_of_singleton].
    { rewrite Forall_forall in Hq0. by destruct (Hq0 _ Hev). }
    injection Hev as -> -> -> ->.
    split_and!; try done.
    intros Hret. specialize (Hgp Hret). by subst generated_path.
Qed.

End Generate.

End ServiceFacts.

(** ** The properties on the stubs *)

Module Witnesses.
Import PyStr Clock Slug Paths Json Eff VoiceManager TTSService Process Fixture.

#[local] Existing Instances Fixture.platform Fixture.synthesizer Fixture.audio.

(** [add_voice_resolves] at the name New Voice on the seeded registry. *)
Lemma add_voice_resolves_witness :
  strip isspace "New Voice" <> "" /\
  exists slug k voice w',
    (@_slugify Fixture.platform "New Voice" seeded).1 = Ok slug /\
    @add_voice Fixture.platform Fixture.settings Fixture.upload "New Voice" seeded
    = (Ok voice, w') /\
    Voice.id voice = candidate slug k /\
    first_free (_voices seeded) slug k.
Proof.
  assert (Hname : strip isspace "New Voice" <> "") by done.
  split; [exact Hname|].
  destruct (proj1 (@RegistryFacts.add_voice_resolves Fixture.platform Fixture.settings)
              Fixture.upload "New Voice" seeded Hname)
    as (slug & k & voice & w' & Hslug & Hrun & Hid & Hfree & _).
  by exists slug, k, voice, w'.
Defined.

(** [add_voice_blank_name] at a name of two spaces. *)
Lemma add_voice_blank_name_witness :
  all_chars isspace "  " = true /\
  @add_voice Fixture.platform Fixture.settings Fixture.upload "  " seeded
  = (Raise (HTTPException 400 "voice_name must not be empty"), seeded).
Proof.
  split; [reflexivity|].
  apply (@RegistryFacts.add_voice_blank_name Fixture.platform Fixture.settings).
  reflexivity.
Defined.



(** [registry_keys_consistent] on a registry that was constructed and
    then received two uploads. *)
Lemma registry_keys_consistent_witness :
  let w := serve Fixture.settings
             (AddVoice Fixture.upload "New Voice")
             (serve Fixture.settings
                (AddVoice Fixture.upload "New Voice") seeded) in
  size (_voices w) = 3 /\ key_consistent (_voices w).
Proof.
  split; [reflexivity|].
  apply (proj1 (FrameFacts.registry_keys_consistent Fixture.settings)).
  do 2 apply reach_serve. apply reach_init.
Defined.

(** [generate_blank_text] on a request of two spaces. *)
Lemma generate_blank_text_witness :
  all_chars isspace (GenerateRequest.text Fixture.blank_request) = true /\
  generate Fixture.settings
    Fixture.token Fixture.blank_request seeded
  = (Raise (HTTPException 400 "text must not be empty"), seeded) /\
  trace seeded = [].
Proof.
  split; [reflexivity|]. split; [|reflexivity].
  apply (proj1 (ServiceFacts.generate_blank_text Fixture.settings)).
  reflexivity.
Defined.



Lemma stub_returns_output_path : returns_output_path.
Proof. intros model prompt text output_path fs generated_path. cbn. by intros [= <-]. Qed.



(** [generate_removes_raw] on the request of the tests, which is off
    the tolerance in speed and in pitch. *)
Lemma generate_removes_raw_witness :
  let run := generate Fixture.settings
               Fixture.token Fixture.request seeded in
  let source := raw_output Fixture.settings Fixture.token in
  let destination := final_output Fixture.settings Fixture.token in
  let ev := CallPostProcess source destination (12 # 10) (-1 # 1) in
  trace run.2 = (trace seeded ++ trace run.2)%list /\
  ev ∈ trace run.2 /\
  files run.2 !! source = None.
Proof.
  cbn zeta.
  set (run := generate Fixture.settings
               Fixture.token Fixture.request seeded).
  assert (Htrace : trace run.2 = (trace seeded ++ trace run.2)%list) by reflexivity.
  assert (Hev : CallPostProcess (raw_output Fixture.settings Fixture.token)
                  (final_output Fixture.settings Fixture.token) (12 # 10) (-1 # 1)
                ∈ trace run.2).
  { apply list_elem_of_In. vm_compute. do 5 right. by left. }
  split_and!; [exact Htrace|exact Hev|].
  exact (proj1 (ServiceFacts.generate_removes_raw Fixture.settings Fixture.token Fixture.request seeded
                  run.1 run.2 (trace run.2) _ _ _ _
                  (surjective_pairing run) Htrace Hev)).
Defined.

(** A model whose first load fails is loaded by a later call:
    [ensure_model_loaded] keeps no record of a failure. *)
Lemma ensure_model_loaded_after_failure :
  let first := ensure_model_loaded (H0 := Fixture.flaky_synthesizer) Fixture.settings seeded in
  let second := ensure_model_loaded (H0 := Fixture.flaky_synthesizer) Fixture.settings first.2 in
  first.1 = Raise (LibraryError "checkpoint missing") /\
  second.1 = Ok tt /\
  constructions (trace second.2) = 2.
Proof. by vm_compute. Qed.

(** With a writer that fails in the middle of the file the request
    fails and the bytes written so far are at the final output path:
    [generate_final_output] needs a writer that writes a file whole or
    not at all. *)
Lemma generate_after_torn_write :
  let run := generate (H1 := Fixture.torn_audio) Fixture.settings
               Fixture.token Fixture.request seeded in
  run.1 = Raise (LibraryError "No space left on device") /\
  files run.2 !! final_output Fixture.settings Fixture.token = Some (Raw "RI") /\
  files run.2 !! raw_output Fixture.settings Fixture.token = None.
Proof. by vm_compute. Qed.

End Witnesses.

(** ** The registry: reads, writes and what they leave on the disk *)

Module RegistryMore.
Import PyStr Clock Slug Paths Json Eff VoiceManager PyStrFacts SlugFacts RegistryFacts.

Lemma drop_prefix_none pre s :
  String.prefix pre s = false -> drop_prefix pre s = None.
Proof.
  revert s. induction pre as [|a pre IH]; intros [|b s]; cbn; try done.
  destruct (ascii_dec a b) as [->|Hab].
  - rewrite decide_True by done. apply IH.
  - by rewrite decide_False.
Qed.

Lemma joinpath_nested d vid fn :
  relative_text vid -> relative_text fn ->
  joinpath (joinpath d vid) fn = joinpath d (vid +:+ "/" +:+ fn).
Proof.
  intros Hvid Hfn.
  rewrite (joinpath_relative d vid) by done.
  rewrite (joinpath_relative _ fn) by done.
  rewrite (joinpath_relative d) by (by apply relative_text_app).
  by rewrite !app_assoc.
Qed.

Section Runs.
Context `{Platform} (settings : Settings.t).


(** What a call of [add_voice] that returned has done. *)
Lemma add_voice_ok upload voice_name w voice w' :
  add_voice settings upload voice_name w = (Ok voice, w') ->
  exists slug k,
    strip isspace voice_name <> "" /\
    (_slugify voice_name w).1 = Ok slug /\
    relative_text slug /\
    first_free (_voices w) slug k /\
    Voice.id voice = candidate slug k /\
    Voice.name voice = strip isspace voice_name /\
    Voice.path voice = candidate slug k +:+ "/" +:+ prompt_filename upload /\
    _voices w' = <[candidate slug k := voice]> (_voices w) /\
    files w' = saved_files settings (_voices w')
                 (<[joinpath (Settings.voices_dir settings) (Voice.path voice)
                    := Raw (UploadFile.file upload)]> (files w)).
Proof.
  intros Hrun.
  assert (Hname : strip isspace voice_name <> "").
  { intros Hblank. unfold add_voice in Hrun. by rewrite Hblank in Hrun. }
  destruct (add_voice_run settings upload voice_name w Hname)
    as (slug & k & voice0 & w0 & Hslug & Hfree & Hrun0 & Hvoice & Hvoices & Hfiles).
  rewrite Hrun in Hrun0. injection Hrun0 as <- <-.
  destruct (slugify_run voice_name w) as (slug1 & w1 & Hslug1 & _ & Hrel & _).
  rewrite Hslug1 in Hslug. injection Hslug as ->.
  exists slug, k. rewrite Hslug1.
  assert (Voice.path voice = candidate slug k +:+ "/" +:+ prompt_filename upload) as Hpath
    by (by rewrite Hvoice).
  split_and!; try done; try (by rewrite Hvoice).
  rewrite Hpath, <- joinpath_nested; [done|by apply candidate_relative|].
  apply prompt_filename_relative.
Qed.

(** X1. [register_voice] stores the voice under the identifier it is
    given, whether the identifier was taken or not: a lookup of that
    identifier then gives the new voice, a lookup of any other gives
    what it gave before, the registry grows by one entry only when the
    identifier was free, and the metadata file holds the registry. *)
Theorem register_voice_replaces voice_id name file_path w voice w' :
  register_voice settings voice_id name file_path w = (Ok voice, w') ->
  get_voice settings (Some voice_id) w' = (Ok voice, w') /\
  (forall other, other <> voice_id ->
     (get_voice settings (Some other) w').1 = (get_voice settings (Some other) w).1) /\
  Voice.id voice = voice_id /\ Voice.name voice = name /\
  relative_to file_path (Settings.voices_dir settings) = Some (Voice.path voice) /\
  (is_Some (_voices w !! voice_id) -> size (_voices w') = size (_voices w)) /\
  (_voices w !! voice_id = None -> size (_voices w') = S (size (_voices w))) /\
  files w' !! (Settings.metadata_path settings) = Some (Doc (payload_of (_voices w'))).
Proof.
  intros Hrun.
  destruct (relative_to file_path (Settings.voices_dir settings)) as [rel|] eqn:Hrel;
    [|by unfold register_voice in Hrun; rewrite Hrel in Hrun].
  rewrite (register_voice_run settings _ _ _ _ _ Hrel) in Hrun.
  injection Hrun as <- <-. cbn [Voice.id Voice.name Voice.path].
  split_and!; try done.
  - unfold get_voice, gets, mbind, M_bind. cbn [default from_option id _voices set_files set_voices set_ticks].
    by rewrite lookup_insert_eq.
  - intros other Hother. unfold get_voice, gets, mbind, M_bind.
    cbn [default from_option id _voices set_files set_voices set_ticks].
    rewrite lookup_insert_ne by done. by destruct (_voices w !! other).
  - intros [old Hold]. cbn [_voices set_files set_voices set_ticks].
    rewrite <- (insert_delete_id (_voices w) voice_id old) at 2 by done.
    rewrite <- insert_delete_eq.
    by rewrite !map_size_insert_None by apply lookup_delete_eq.
  - intros Hfree. cbn [_voices set_files set_voices set_ticks].
    by rewrite map_size_insert_None.
  - cbn [files _voices set_files set_voices set_ticks]. unfold saved_files.
    by rewrite lookup_insert_eq.
Qed.

(** X2. A file that is neither the voices directory nor below it makes
    [register_voice] raise the [ValueError] of [relative_to]; the
    registry, the disk and the clock are as they were. *)
Theorem register_voice_outside voice_id name file_path w :
  file_path <> (Settings.voices_dir settings) ->
  String.prefix ((Settings.voices_dir settings) +:+ "/") file_path = false ->
  register_voice settings voice_id name file_path w
  = (Raise (ValueError "is not in the subpath of"), w).
Proof.
  intros Hne Hprefix. unfold register_voice, relative_to.
  rewrite decide_False by done. by rewrite drop_prefix_none.
Qed.

(** X3. A call of [add_voice] that returns has added one entry and
    changed no other: the identifier of the new voice was free before,
    it holds the new voice after, every other identifier holds what it
    held, the registry is larger by one, the name stored is the name
    given without the white space around it, and a lookup of the new
    identifier returns the voice. *)
Theorem add_voice_adds_one upload voice_name w voice w' :
  add_voice settings upload voice_name w = (Ok voice, w') ->
  _voices w !! Voice.id voice = None /\
  _voices w' !! Voice.id voice = Some voice /\
  (forall k, k <> Voice.id voice -> _voices w' !! k = _voices w !! k) /\
  size (_voices w') = S (size (_voices w)) /\
  Voice.name voice = strip isspace voice_name /\
  get_voice settings (Some (Voice.id voice)) w' = (Ok voice, w').
Proof.
  intros Hrun.
  destruct (add_voice_ok _ _ _ _ _ Hrun)
    as (slug & k & _ & _ & _ & (_ & Hfree & _) & Hid & Hname & _ & Hvoices & _).
  rewrite Hid, Hvoices. split_and!; try done.
  - by rewrite lookup_insert_eq.
  - intros k' Hk'. by rewrite lookup_insert_ne.
  - by rewrite map_size_insert_None.
  - unfold get_voice, gets, mbind, M_bind. cbn [default from_option id].
    by rewrite Hvoices, lookup_insert_eq.
Qed.

(** X4. After [add_voice] the prompt of the new voice is the file
    [prompt] with the suffix of the upload, in the directory of the
    identifier below the voices directory; it holds the bytes that were
    uploaded, [absolute_voice_path] returns it, and no file but this
    one, the metadata file and its temporary file has changed.  The
    prompt is not the metadata file nor its temporary file. *)
Theorem add_voice_stores_upload upload voice_name w voice w' :
  add_voice settings upload voice_name w = (Ok voice, w') ->
  let target := joinpath (Settings.voices_dir settings) (Voice.path voice) in
  target <> (with_suffix (Settings.metadata_path settings) ".tmp") -> target <> (Settings.metadata_path settings) ->
  Voice.path voice = Voice.id voice +:+ "/" +:+ prompt_filename upload /\
  target = (Settings.voices_dir settings) +:+ "/" +:+ Voice.id voice +:+ "/" +:+ prompt_filename upload /\
  files w' !! target = Some (Raw (UploadFile.file upload)) /\
  absolute_voice_path settings voice w' = (Ok target, w') /\
  (forall p, p <> target -> p <> (with_suffix (Settings.metadata_path settings) ".tmp") -> p <> (Settings.metadata_path settings) ->
     files w' !! p = files w !! p).
Proof.
  intros Hrun target Htmp Hmeta.
  destruct (add_voice_ok _ _ _ _ _ Hrun)
    as (slug & k & _ & _ & Hrel & _ & Hid & _ & Hpath & _ & Hfiles).
  assert (Hfile : files w' !! target = Some (Raw (UploadFile.file upload))).
  { rewrite Hfiles. unfold saved_files. cbn zeta.
    rewrite lookup_insert_ne, lookup_delete_ne, lookup_insert_ne by done.
    by rewrite lookup_insert_eq. }
  split_and!.
  - by rewrite Hid.
  - unfold target. rewrite Hpath, Hid. apply joinpath_relative.
    apply relative_text_app. by apply candidate_relative.
  - done.
  - unfold absolute_voice_path, exists_, gets, mbind, M_bind. fold target.
    rewrite Hfile. by rewrite bool_decide_eq_true_2.
  - intros p Hp Hptmp Hpmeta. rewrite Hfiles. unfold saved_files. cbn zeta.
    rewrite lookup_insert_ne, lookup_delete_ne, lookup_insert_ne by done.
    by rewrite lookup_insert_ne.
Qed.

End Runs.
End RegistryMore.

(** ** Identifiers and file names of uploaded voices *)

Module NamingFacts.
Import PyStr Clock Slug Paths Json Eff VoiceManager PyStrFacts SlugFacts RegistryFacts.
Import RegistryMore.

Lemma digit_slug_alphabet c : is_digit c = true -> slug_alphabet c = true.
Proof.
  unfold is_digit, slug_alphabet, is_slug_char. intros ->.
  by rewrite orb_true_r.
Qed.

Lemma pretty_nat_digits (k : nat) : all_chars is_digit (pretty k) = true.
Proof. apply (pretty_N_digits (N.of_nat k)). Qed.

Lemma spec_slugify_alphabet now value :
  all_chars slug_alphabet (spec_slugify now value) = true.
Proof.
  unfold spec_slugify.
  destruct (spec_slug value) as [|c r] eqn:Hslug.
  - rewrite all_chars_app. apply andb_true_intro. split; [done|].
    apply (all_chars_weaken is_digit); [apply digit_slug_alphabet|].
    apply strftime_compact_digits.
  - rewrite <- Hslug, spec_slug_scan. apply strip_keeps, sub_scan_alphabet.
Qed.

Lemma spec_slugify_head now value c r :
  spec_slugify now value = String c r -> c <> dash.
Proof.
  unfold spec_slugify.
  destruct (spec_slug value) as [|c' r'] eqn:Hslug.
  - rewrite app_cons. by intros [= <- _].
  - intros [= -> ->]. rewrite spec_slug_scan in Hslug.
    apply strip_head in Hslug. by apply is_char_false.
Qed.

Lemma candidate_alphabet slug k :
  all_chars slug_alphabet slug = true ->
  all_chars slug_alphabet (candidate slug k) = true.
Proof.
  intros Hslug. unfold candidate. case_decide; [done|].
  rewrite !all_chars_app, Hslug. cbn [andb].
  apply andb_true_intro. split; [done|].
  apply (all_chars_weaken is_digit); [apply digit_slug_alphabet|].
  apply pretty_nat_digits.
Qed.

Lemma candidate_head slug k c r :
  slug <> "" -> candidate slug k = String c r -> exists r', slug = String c r'.
Proof.
  intros Hne. unfold candidate. destruct slug as [|c' r']; [done|].
  case_decide; [by intros [= -> ->]; eexists|].
  rewrite app_cons. intros [= -> _]. by eexists.
Qed.

(** The text after the last separator has no separator, and its
    characters are characters of the whole. *)
Lemma rsplit_tail (p : ascii -> bool) sep s a b :
  rsplit sep s = Some (a, b) ->
  all_chars (fun c => negb (is_char sep c)) b = true /\
  (all_chars p s = true -> all_chars p b = true).
Proof.
  revert a b. induction s as [|c s IH]; intros a b; cbn [rsplit]; [done|].
  destruct (rsplit sep s) as [[a' b']|] eqn:Hs.
  - intros [= <- <-]. destruct (IH _ _ eq_refl) as [Hsep Hp].
    split; [done|]. cbn [all_chars]. intros [_ Hs']%andb_prop. by apply Hp.
  - case_decide as Hc; [|done]. intros [= <- <-]. split.
    + clear IH Hc. induction s as [|c' s IH]; [done|].
      cbn [rsplit] in Hs. cbn [all_chars].
      destruct (rsplit sep s) as [[a' b']|]; [done|].
      unfold is_char at 1. case_decide; [done|]. by apply IH.
    + cbn [all_chars]. by intros [_ Hs']%andb_prop.
Qed.

Lemma name_no_slash p : all_chars (fun c => negb (is_char slash c)) (name p) = true.
Proof.
  unfold name, parts.
  apply (last_Forall (fun x => all_chars (fun c => negb (is_char slash c)) x = true));
    [done|].
  apply filter_Forall, split_no_sep.
Qed.

(** What [Path(p).suffix] is: empty, or a dot followed by a text that
    is not empty and has neither a dot nor a slash. *)
Lemma suffix_shape p :
  suffix p = "" \/
  exists ext, suffix p = "." +:+ ext /\ ext <> "" /\
              all_chars (fun c => negb (is_char dot c)) ext = true /\
              all_chars (fun c => negb (is_char slash c)) ext = true.
Proof.
  unfold suffix. destruct (rsplit dot (name p)) as [[st ext]|] eqn:Hsplit; [|by left].
  destruct (falsy st || falsy ext) eqn:Hfalsy; [by left|right].
  apply orb_false_elim in Hfalsy as [_ Hext%falsy_false].
  destruct (rsplit_tail (fun c => negb (is_char slash c)) _ _ _ _ Hsplit) as [Hdot Hslash].
  exists ext. split_and!; try done. apply Hslash, name_no_slash.
Qed.

Section Naming.
Context `{Platform} (settings : Settings.t).

(** X5. The identifier that [add_voice] gives a voice is not empty, is
    made of the characters [a-z0-9] and the dash only, and does not
    start with a dash, whatever the display name: it has no slash, no
    dot and no white space, so the directory of the voice is a direct
    child of the voices directory. *)
Theorem add_voice_id_alphabet upload voice_name w voice w' :
  add_voice settings upload voice_name w = (Ok voice, w') ->
  Voice.id voice <> "" /\
  all_chars slug_alphabet (Voice.id voice) = true /\
  (forall c r, Voice.id voice = String c r -> c <> dash) /\
  all_chars (fun c => negb (is_char slash c) && negb (is_char dot c) && negb (isspace c))
    (Voice.id voice) = true.
Proof.
  intros Hrun.
  destruct (add_voice_ok settings _ _ _ _ _ Hrun)
    as (slug & k & _ & Hslug & Hrel & _ & Hid & _).
  destruct (slugify_run voice_name w) as (slug1 & w1 & Hslug1 & Hspec & _).
  rewrite Hslug1 in Hslug. injection Hslug as ->.
  assert (Halpha : all_chars slug_alphabet (Voice.id voice) = true).
  { rewrite Hid. apply candidate_alphabet. rewrite Hspec. apply spec_slugify_alphabet. }
  split_and!.
  - rewrite Hid. destruct (candidate_relative slug k Hrel) as (c & r & -> & _). done.
  - done.
  - intros c r Hc. rewrite Hid in Hc.
    destruct Hrel as (c0 & r0 & Hslug0 & _).
    destruct (candidate_head slug k c r) as [r' Hr']; [by rewrite Hslug0|done|].
    rewrite Hspec in Hr'. by eapply spec_slugify_head.
  - revert Halpha. apply all_chars_weaken. intros c.
    unfold slug_alphabet, is_slug_char, is_char, isspace, between, dash, slash, dot, code.
    destruct c as [[] [] [] [] [] [] [] []]; by vm_compute.
Qed.

(** X6. The file name under which [add_voice] stores an upload is
    [prompt] followed by a dot and an extension that is not empty and
    has no slash and no dot: of the file name of the upload only the
    text after its last dot is used.  Without a file name, or with one
    that has no suffix, the file is [prompt.wav]. *)
Theorem prompt_filename_shape :
  (forall upload,
     exists ext,
       prompt_filename upload = "prompt." +:+ ext /\ ext <> "" /\
       all_chars (fun c => negb (is_char dot c)) ext = true /\
       all_chars (fun c => negb (is_char slash c)) ext = true) /\
  (forall file, prompt_filename (UploadFile.mk None file) = "prompt.wav") /\
  (forall fn file,
     suffix fn = "" -> prompt_filename (UploadFile.mk (Some fn) file) = "prompt.wav") /\
  (forall fn file,
     suffix fn <> "" ->
     prompt_filename (UploadFile.mk (Some fn) file) = "prompt" +:+ suffix fn).
Proof.
  split_and!.
  - intros upload. unfold prompt_filename.
    match goal with |- context [falsy (suffix ?n)] => set (upload_name := n) end.
    destruct (suffix_shape upload_name) as [->|(ext & -> & Hext)].
    + by exists "wav".
    + exists ext. by rewrite app_cons.
  - done.
  - intros fn file Hfn. unfold prompt_filename. cbn [UploadFile.filename].
    destruct fn as [|c r]; [done|]. cbn [falsy]. by rewrite Hfn.
  - intros fn file Hfn. unfold prompt_filename. cbn [UploadFile.filename].
    destruct fn as [|c r]; [done|]. cbn [falsy].
    by destruct (suffix (String c r)).
Qed.

End Naming.
End NamingFacts.

(** ** The metadata file: saving, loading and starting again *)

Module PersistenceFacts.
Import PyStr Clock Slug Paths Json Eff VoiceManager PyStrFacts SlugFacts RegistryFacts.
Import RegistryMore.

Section Persistence.
Context `{Platform} (settings : Settings.t).

(** [_load] by what the metadata file holds. *)
Lemma load_shape w :
  _load settings w
  = match files w !! Settings.metadata_path settings with
    | None => (Ok tt, set_voices (fun _ => ∅) w)
    | Some c =>
        match json_loads c with
        | Ok data =>
            match voices_items data with
            | Ok items =>
                (Ok tt, set_voices
                          (fun _ => foldl (load_step settings (files w)) ∅ items) w)
            | Raise e => (Raise e, w)
            end
        | Raise e => (Raise e, w)
        end
    end.
Proof.
  unfold _load, exists_, read, gets, lift, modify, mbind, M_bind.
  destruct (files w !! Settings.metadata_path settings) as [c|] eqn:Hfile.
  - rewrite bool_decide_eq_true_2 by (by eexists). cbn [negb].
    rewrite Hfile. destruct (json_loads c) as [data|]; [|done].
    by destruct (voices_items data).
  - by rewrite bool_decide_eq_false_2 by (by intros [? ?]).
Qed.

(** A load that raises makes [bootstrap] and the constructor raise the
    same exception. *)
Lemma load_raise_start w e :
  _load settings w = (Raise e, w) ->
  bootstrap settings w = (Raise e, w) /\
  __init__ settings w = (Raise e, set_voices (fun _ => ∅) w).
Proof.
  intros Hload. split.
  - unfold bootstrap. rewrite (bind_ok _ _ w tt w) by done.
    by rewrite (bind_raise _ _ _ _ _ Hload).
  - assert (_load settings (set_voices (fun _ => ∅) w)
            = (Raise e, set_voices (fun _ => ∅) w)) as Hload0.
    { revert Hload. rewrite !load_shape. cbn [files set_voices].
      destruct (files w !! Settings.metadata_path settings) as [c|]; [|done].
      destruct (json_loads c) as [data|]; [|by intros [= ->]].
      destruct (voices_items data); [done|by intros [= ->]]. }
    unfold __init__, modify. unfold mbind at 1, M_bind at 1.
    unfold bootstrap. rewrite (bind_ok _ _ _ tt (set_voices (fun _ => ∅) w)) by done.
    by rewrite (bind_raise _ _ _ _ _ Hload0).
Qed.


(** X8. A metadata file that is there but is not a JSON document, or
    whose top level is not an object, or whose [voices] member is null,
    a truth value or a number, makes [_load] raise ([JSONDecodeError],
    [AttributeError], [TypeError]) and leave the registry as it was;
    [bootstrap] and the constructor of the registry raise the same
    exception, so no registry is constructed over such a file. *)
Theorem load_corrupt_metadata :
  (forall w bytes,
     files w !! Settings.metadata_path settings = Some (Raw bytes) ->
     _load settings w = (Raise JSONDecodeError, w) /\
     bootstrap settings w = (Raise JSONDecodeError, w) /\
     __init__ settings w = (Raise JSONDecodeError, set_voices (fun _ => ∅) w)) /\
  (forall w j,
     files w !! Settings.metadata_path settings = Some (Doc j) ->
     (forall members, j <> JObj members) ->
     _load settings w = (Raise AttributeError, w) /\
     bootstrap settings w = (Raise AttributeError, w) /\
     __init__ settings w = (Raise AttributeError, set_voices (fun _ => ∅) w)) /\
  (forall w members v,
     files w !! Settings.metadata_path settings = Some (Doc (JObj members)) ->
     get "voices" members = Some v ->
     v = JNull \/ (exists b, v = JBool b) \/ (exists z, v = JNum z) ->
     _load settings w = (Raise TypeError, w) /\
     bootstrap settings w = (Raise TypeError, w) /\
     __init__ settings w = (Raise TypeError, set_voices (fun _ => ∅) w)).
Proof.
  assert (Hstart : forall w e,
            _load settings w = (Raise e, w) ->
            _load settings w = (Raise e, w) /\
            bootstrap settings w = (Raise e, w) /\
            __init__ settings w = (Raise e, set_voices (fun _ => ∅) w)).
  { intros w e Hload. by destruct (load_raise_start w e Hload). }
  split_and!.
  - intros w bytes Hfile. apply Hstart. by rewrite load_shape, Hfile.
  - intros w j Hfile Hj. apply Hstart. rewrite load_shape, Hfile. cbn [json_loads].
    destruct j; try done. by destruct (Hj members).
  - intros w members v Hfile Hv Hkind. apply Hstart. rewrite load_shape, Hfile.
    cbn [json_loads voices_items]. rewrite Hv.
    by destruct Hkind as [->|[[b ->]|[z ->]]].
Qed.

(** X9. [_load] reads the disk and nothing else: it touches neither the
    disk nor the clock, its outcome and the registry it builds depend on
    the disk only and not on the registry held before, and a second
    load right after the first changes nothing. *)
Theorem load_reads_disk_only w :
  files (_load settings w).2 = files w /\
  ticks (_load settings w).2 = ticks w /\
  trace (_load settings w).2 = trace w /\
  _load settings (_load settings w).2 = _load settings w /\
  (forall w0,
     files w0 = files w ->
     (_load settings w0).1 = (_load settings w).1 /\
     ((_load settings w).1 = Ok tt ->
      _voices (_load settings w0).2 = _voices (_load settings w).2)).
Proof.
  pose proof load_shape as Hshape.
  split_and!.
  - rewrite Hshape. destruct (files w !! _) as [c|]; [|done].
    destruct (json_loads c) as [data|]; [|done]. by destruct (voices_items data).
  - rewrite Hshape. destruct (files w !! _) as [c|]; [|done].
    destruct (json_loads c) as [data|]; [|done]. by destruct (voices_items data).
  - rewrite Hshape. destruct (files w !! _) as [c|]; [|done].
    destruct (json_loads c) as [data|]; [|done]. by destruct (voices_items data).
  - rewrite (Hshape w).
    destruct (files w !! Settings.metadata_path settings) as [c|] eqn:Hfile.
    + destruct (json_loads c) as [data|] eqn:Hdata.
      * destruct (voices_items data) as [items|] eqn:Hitems.
        -- rewrite Hshape. cbn [files set_voices snd]. by rewrite Hfile, Hdata, Hitems.
        -- rewrite Hshape. cbn [snd]. by rewrite Hfile, Hdata, Hitems.
      * rewrite Hshape. cbn [snd]. by rewrite Hfile, Hdata.
    + rewrite Hshape. cbn [files set_voices snd]. by rewrite Hfile.
  - intros w0 Hfiles. rewrite (Hshape w0), (Hshape w), Hfiles.
    destruct (files w !! _) as [c|]; [|done].
    destruct (json_loads c) as [data|]; [|done]. by destruct (voices_items data).
Qed.






(** X14. In a registry whose keys are the identifiers of its voices the
    two reads agree: [list_voices] returns as many voices as the
    registry has entries, no two with one identifier, and a voice is in
    the list exactly when [get_voice] returns it for its identifier. *)
Theorem list_voices_get_voice w :
  key_consistent (_voices w) ->
  exists listed,
    list_voices w = (Ok listed, w) /\
    length listed = size (_voices w) /\
    NoDup (Voice.id <$> listed) /\
    forall voice,
      voice ∈ listed <->
      get_voice settings (Some (Voice.id voice)) w = (Ok voice, w).
Proof.
  intros Hcons. exists (values (_voices w)). split_and!.
  - done.
  - unfold values. by rewrite length_fmap, length_map_to_list.
  - rewrite values_ids by done. apply NoDup_fst_map_to_list.
  - intros voice. rewrite elem_of_values.
    unfold get_voice, gets, mbind, M_bind. cbn [default from_option id].
    split.
    + intros [k Hk]. rewrite (Hcons _ _ Hk). by rewrite Hk.
    + destruct (_voices w !! Voice.id voice) as [v|] eqn:Hv; [|done].
      intros [= ->]. by exists (Voice.id voice).
Qed.

End Persistence.
End PersistenceFacts.

(** ** The orchestrator: the order of its checks and what it leaves *)

Module GenerateFacts.
Import PyStr PyStrFacts Paths Json Eff VoiceManager Audio TTSService Process FrameFacts.
Import RegistryFacts ServiceFacts.

Section Generate.
Context `{Platform} `{Synthesizer} `{AudioLib} (settings : Settings.t).

(** The world in which [generate] loads the model: the two lookups are
    in the trace. *)
Lemma generate_to_synthesis unique_id payload w voice w3 model :
  all_chars isspace (GenerateRequest.text payload) = false ->
  _voices w !! default (Settings.default_voice_id settings) (GenerateRequest.voice_id payload)
  = Some voice ->
  is_Some (files w !! joinpath (Settings.voices_dir settings) (Voice.path voice)) ->
  ensure_model_loaded settings
    (set_trace (fun t => (t ++ [CallAbsoluteVoicePath voice])%list)
       (set_trace (fun t => (t ++ [CallGetVoice (GenerateRequest.voice_id payload)])%list) w))
  = (Ok tt, w3) ->
  _model w3 = Some model ->
  generate settings unique_id payload w
  = generate_synthesis settings unique_id payload voice
      (joinpath (Settings.voices_dir settings) (Voice.path voice)) model w3.
Proof.
  intros Htext Hvoice Hfile Hload Hmodel.
  rewrite generate_unfold. cbn zeta.
  destruct (_ || _) eqn:Hblank; [apply blank_text in Hblank; congruence|].
  rewrite (bind_ok _ _ w voice
             (set_trace (fun t => (t ++ [CallGetVoice (GenerateRequest.voice_id payload)])%list) w)).
  2:{ unfold call, modify, get_voice, gets, mbind, M_bind.
      cbn [_voices set_trace]. by rewrite Hvoice. }
  rewrite (bind_ok _ _ _ (joinpath (Settings.voices_dir settings) (Voice.path voice))
             (set_trace (fun t => (t ++ [CallAbsoluteVoicePath voice])%list)
                (set_trace (fun t => (t ++ [CallGetVoice (GenerateRequest.voice_id payload)])%list) w))).
  2:{ unfold call, modify, absolute_voice_path, exists_, gets, mbind, M_bind.
      cbn [files set_trace]. by rewrite bool_decide_eq_true_2. }
  rewrite (bind_ok _ _ _ _ _ Hload).
  unfold gets at 1. unfold mbind at 1, M_bind at 1. by rewrite Hmodel.
Qed.

Lemma call_infer_run model prompt text output_path w :
  call_infer model prompt text output_path w
  = ((infer model prompt text output_path (files w)).1,
     set_files (fun _ => (infer model prompt text output_path (files w)).2)
       (set_trace (fun t => (t ++ [CallInfer prompt text output_path])%list) w)).
Proof.
  unfold call_infer, call, modify, mbind, M_bind. cbn [files set_trace].
  by destruct (infer _ _ _ _ _).
Qed.

(** [generate] from the call of the model on. *)
Lemma synthesis_run unique_id payload voice voice_path model w :
  let text := GenerateRequest.text payload in
  let raw := raw_output settings unique_id in
  let outcome := infer model voice_path text raw (files w) in
  let after := set_files (fun _ => outcome.2)
                 (set_trace (fun t => (t ++ [CallInfer voice_path text raw])%list) w) in
  generate_synthesis settings unique_id payload voice voice_path model w
  = match outcome.1 with
    | Raise e => (Raise (HTTPException 500 ("Inference failed: " +:+ exn_str e)), after)
    | Ok None => (Raise (HTTPException 500 "Model did not return a valid audio path"), after)
    | Ok (Some p) =>
        if falsy p || negb (bool_decide (is_Some (outcome.2 !! p)))
        then (Raise (HTTPException 500 "Model did not return a valid audio path"), after)
        else generate_delivery settings unique_id payload voice p after
    end.
Proof.
  cbn zeta. unfold generate_synthesis. cbn zeta.
  fold (raw_output settings unique_id).
  unfold mkdir, try_except, exists_, gets, raise, mbind, M_bind, mret, M_ret.
  rewrite call_infer_run.
  destruct (infer _ _ _ _ _) as [[[p|]|e] fs]; cbn [fst snd]; try done.
  destruct p as [|c0 p0]; [done|]. cbn [falsy orb files set_files].
  by destruct (bool_decide _).
Qed.



(** X17. For a speed and a pitch within the tolerance [generate] moves
    what the model produced to the final path: when the model returns a
    path that is on the disk, [generate] returns, the final path holds
    the content the model left at the returned path, that path is gone
    (unless it is the final path), no other file has changed since the
    model ran, the post-processor was not called, and the response
    carries the [id] of the voice, the name of the final file and an
    empty URL.  The token is not an absolute path. *)
Theorem generate_moves_raw unique_id payload w voice w3 model p c :
  all_chars isspace (GenerateRequest.text payload) = false ->
  _voices w !! default (Settings.default_voice_id settings) (GenerateRequest.voice_id payload)
  = Some voice ->
  is_Some (files w !! joinpath (Settings.voices_dir settings) (Voice.path voice)) ->
  ensure_model_loaded settings
    (set_trace (fun t => (t ++ [CallAbsoluteVoicePath voice])%list)
       (set_trace (fun t => (t ++ [CallGetVoice (GenerateRequest.voice_id payload)])%list) w))
  = (Ok tt, w3) ->
  _model w3 = Some model ->
  beyond_tolerance (GenerateRequest.speed payload) (GenerateRequest.pitch payload) = false ->
  is_absolute unique_id = false ->
  let voice_path := joinpath (Settings.voices_dir settings) (Voice.path voice) in
  let text := GenerateRequest.text payload in
  let raw := raw_output settings unique_id in
  let final := final_output settings unique_id in
  let outcome := infer model voice_path text raw (files w3) in
  outcome.1 = Ok (Some p) -> p <> "" -> outcome.2 !! p = Some c ->
  exists w',
    generate settings unique_id payload w
    = (Ok (GenerateResponse.mk (Voice.id voice) (final_name unique_id) ""), w') /\
    files w' !! final = Some c /\
    (p <> final -> files w' !! p = None) /\
    (forall q, q <> final -> q <> p -> files w' !! q = outcome.2 !! q) /\
    trace w' = (trace w3 ++ [CallInfer voice_path text raw])%list /\
    _voices w' = _voices w.
Proof.
  intros Htext Hvoice Hfile Hload Hmodel Hwithin Hid voice_path text raw final outcome
    Hout Hp Hc.
  assert (Hvoices3 : _voices w3 = _voices w).
  { pose proof (rs_ensure_model_loaded settings same_voices) as Hsame.
    specialize (Hsame (fun _ _ => eq_refl) (fun _ => eq_refl) (fun _ => eq_refl)).
    specialize (Hsame (set_trace (fun t => (t ++ [CallAbsoluteVoicePath voice])%list)
       (set_trace (fun t => (t ++ [CallGetVoice (GenerateRequest.voice_id payload)])%list) w))).
    rewrite Hload in Hsame. exact Hsame. }
  rewrite (generate_to_synthesis _ _ _ _ _ _ Htext Hvoice Hfile Hload Hmodel).
  rewrite synthesis_run. fold voice_path text raw outcome.
  rewrite Hout, Hc. rewrite bool_decide_eq_true_2 by (by eexists).
  rewrite ((proj2 (falsy_false p)) Hp). cbn [orb negb].
  unfold generate_delivery. cbn zeta. rewrite Hwithin.
  fold (final_output settings unique_id). fold final.
  unfold replace. unfold mbind at 1, M_bind at 1. cbn [files set_files].
  rewrite Hc. unfold final. rewrite final_output_relative by done.
  eexists. split; [reflexivity|].
  cbn [files trace _voices set_files set_trace]. split_and!; try done.
  - by rewrite lookup_insert_eq.
  - intros Hne. rewrite lookup_insert_ne by done. apply lookup_delete_eq.
  - intros q Hq1 Hq2. by rewrite lookup_insert_ne, lookup_delete_ne.
Qed.

End Generate.
End GenerateFacts.

(** ** The post-processor and the two tolerances *)

Module AudioFacts.
Import PyStr PyStrFacts Paths Json Eff VoiceManager Audio TTSService Process FrameFacts.
Import RegistryFacts ServiceFacts.


Lemma Qle_bool_false a b : Qle_bool a b = false <-> (b < a)%Q.
Proof.
  split.
  - intros Hf. apply Qnot_le_lt. intros Hle%Qle_bool_iff. congruence.
  - intros Hlt. destruct (Qle_bool a b) eqn:Hle; [|done].
    apply Qle_bool_iff in Hle. lra.
Qed.





Section Audio.
Context `{AudioLib}.

(** The post-processor by what it reads. *)
Lemma apply_speed_and_pitch_run source destination speed pitch w :
  apply_speed_and_pitch source destination speed pitch w
  = match files w !! source with
    | None => (Raise (FileNotFoundError source), w)
    | Some c =>
        match librosa_load c with
        | Raise e => (Raise e, w)
        | Ok (y, sr) =>
            if bool_decide (y = []) then (Raise (ValueError "Audio prompt is empty."), w)
            else
              match (if negb (isclose speed 1 (1 # 1000) 0)
                     then time_stretch y speed else Ok y) with
              | Raise e => (Raise e, w)
              | Ok y1 =>
                  match (if negb (isclose pitch 0 default_rel_tol (1 # 1000))
                         then pitch_shift y1 sr pitch else Ok y1) with
                  | Raise e => (Raise e, w)
                  | Ok y2 =>
                      (_ ← soundfile_write destination y2 sr; mret (destination, sr)) w
                  end
              end
        end
    end.
Proof.
  unfold apply_speed_and_pitch, read, lift. unfold mbind at 1 2, M_bind at 1 2.
  destruct (files w !! source) as [c|]; [|done].
  destruct (librosa_load c) as [[y sr]|e]; [|done].
  case_bool_decide; [done|].
  unfold mbind at 1, M_bind at 1.
  destruct (negb (isclose speed _ _ _)).
  - destruct (time_stretch y speed) as [y1|]; [|done].
    unfold mbind at 1, M_bind at 1.
    destruct (negb (isclose pitch _ _ _)); [|done].
    by destruct (pitch_shift y1 sr pitch).
  - unfold mret at 1, M_ret at 1. unfold mbind at 1, M_bind at 1.
    destruct (negb (isclose pitch _ _ _)); [|done].
    by destruct (pitch_shift y sr pitch).
Qed.

(** X18. What [apply_speed_and_pitch] does before it writes: a source
    that is not on the disk, a source that the decoder refuses and a
    source without samples ([Audio prompt is empty.]) make it raise and
    leave the world as it was, the destination included.  When it
    returns it returns the destination and the sample rate that was
    read from the source, and a source other than the destination is
    as it was. *)
Theorem apply_speed_and_pitch_edges source destination speed pitch w :
  (files w !! source = None ->
   apply_speed_and_pitch source destination speed pitch w
   = (Raise (FileNotFoundError source), w)) /\
  (forall c e,
     files w !! source = Some c -> librosa_load c = Raise e ->
     apply_speed_and_pitch source destination speed pitch w = (Raise e, w)) /\
  (forall c sr,
     files w !! source = Some c -> librosa_load c = Ok ([], sr) ->
     apply_speed_and_pitch source destination speed pitch w
     = (Raise (ValueError "Audio prompt is empty."), w)) /\
  (forall r w',
     apply_speed_and_pitch source destination speed pitch w = (Ok r, w') ->
     r.1 = destination /\
     (exists c y, files w !! source = Some c /\ librosa_load c = Ok (y, r.2) /\ y <> []) /\
     (forall q, q <> destination -> files w' !! q = files w !! q)).
Proof.
  split_and!.
  - intros Hnone. by rewrite apply_speed_and_pitch_run, Hnone.
  - intros c e Hc He. by rewrite apply_speed_and_pitch_run, Hc, He.
  - intros c sr Hc Hy. by rewrite apply_speed_and_pitch_run, Hc, Hy.
  - intros r w'. rewrite apply_speed_and_pitch_run.
    destruct (files w !! source) as [c|]; [|done].
    destruct (librosa_load c) as [[y sr]|e] eqn:Hload; [|done].
    case_bool_decide as Hy; [done|].
    destruct (if negb (isclose speed _ _ _) then _ else _) as [y1|]; [|done].
    destruct (if negb (isclose pitch _ _ _) then _ else _) as [y2|]; [|done].
    unfold soundfile_write, mbind, M_bind, mret, M_ret.
    destruct (sf_write y2 sr _) as [[[]|e] after]; [|done].
    intros [= <- <-]. cbn [fst snd files set_files]. split_and!; [done|by exists c, y|].
    intros q Hq. by rewrite lookup_partial_alter_ne.
Qed.


End Audio.
End AudioFacts.

(** ** The routes and the health report *)

Module ApiFacts.
Import PyStr PyStrFacts Paths Json Eff VoiceManager Audio TTSService Process FrameFacts.
Import RegistryFacts ServiceFacts RegistryMore GenerateFacts AudioFacts.

Section Routes.
Context `{Platform} `{Synthesizer} `{AudioLib} `{TTSServiceMore.Torch} (settings : Settings.t).

(** The post-processor changes no file but its destination, whether it
    returns or raises. *)
Lemma apply_speed_and_pitch_frame source destination speed pitch w q :
  q <> destination ->
  files (apply_speed_and_pitch source destination speed pitch w).2 !! q = files w !! q.
Proof.
  intros Hq. rewrite apply_speed_and_pitch_run.
  destruct (files w !! source) as [c|]; [|done].
  destruct (librosa_load c) as [[y sr]|e]; [|done].
  case_bool_decide; [done|].
  destruct (if negb (isclose speed _ _ _) then _ else _) as [y1|]; [|done].
  destruct (if negb (isclose pitch _ _ _) then _ else _) as [y2|]; [|done].
  unfold soundfile_write, mbind, M_bind, mret, M_ret.
  destruct (sf_write y2 sr _) as [[[]|e] after]; cbn [snd files set_files];
    by rewrite lookup_partial_alter_ne.
Qed.

(** The last steps of [generate] change no file but the generated path
    and the final path. *)
Lemma generate_delivery_frame unique_id payload voice generated_path w q :
  q <> generated_path -> q <> final_output settings unique_id ->
  files (generate_delivery settings unique_id payload voice generated_path w).2 !! q
  = files w !! q.
Proof.
  intros Hq1 Hq2. unfold generate_delivery. cbn zeta.
  fold (final_output settings unique_id).
  assert (Hstep : forall m : M unit,
            files (m w).2 !! q = files w !! q ->
            files ((m ≫= fun _ =>
                      match relative_to (final_output settings unique_id)
                              (Settings.output_dir settings) with
                      | Some rel => mret (GenerateResponse.mk (Voice.id voice) rel "")
                      | None => raise (ValueError "is not in the subpath of")
                      end) w).2 !! q = files w !! q).
  { intros m Hm. unfold mbind, M_bind. destruct (m w) as [[[]|e] w1]; [|done].
    by destruct (relative_to _ _). }
  apply Hstep. destruct (beyond_tolerance _ _).
  - unfold try_finally, call, modify, unlink_missing_ok.
    unfold mbind at 1 2, M_bind at 1 2.
    match goal with
    | |- context [apply_speed_and_pitch ?s ?d ?sp ?pi ?w0] =>
        pose proof (apply_speed_and_pitch_frame s d sp pi w0 q Hq2) as Hkeep;
        destruct (apply_speed_and_pitch s d sp pi w0) as [[r|e] w1]
    end; unfold modify, mret, M_ret; cbn [fst snd files set_files set_trace] in *;
      by rewrite lookup_delete_ne.
  - unfold replace. destruct (files w !! generated_path); [|done].
    cbn [snd files set_files]. by rewrite lookup_insert_ne, lookup_delete_ne.
Qed.

(** X20. [generate] changes no file but its two output paths, for a
    model that writes only the output path it is given and returns that
    path: every other file, the prompts of the voices and the metadata
    file among them, is as it was, whether [generate] returns or
    raises; and the registry in memory is as it was. *)
Theorem generate_touches_outputs unique_id payload w q :
  confined -> returns_output_path ->
  q <> raw_output settings unique_id -> q <> final_output settings unique_id ->
  files (generate settings unique_id payload w).2 !! q = files w !! q /\
  _voices (generate settings unique_id payload w).2 = _voices w.
Proof.
  intros Hconf Hret Hraw Hfinal. split.
  - set (I := fun w1 => files w1 !! q = files w !! q).
    assert (Hgen : hoare I (generate settings unique_id payload) (fun _ w1 => I w1)).
    { apply (hoare_generate settings same_files).
      - by intros m w0.
      - by intros ev _ _ w0.
      - unfold I, same_files. by intros w0 w1 ->.
      - done.
      - intros voice voice_path model w1 Hw1. rewrite synthesis_run.
        pose proof (Hconf model voice_path (GenerateRequest.text payload)
                      (raw_output settings unique_id) (files w1) q Hraw) as Hkeep.
        pose proof (Hret model voice_path (GenerateRequest.text payload)
                      (raw_output settings unique_id) (files w1)) as Hpath.
        destruct (infer _ _ _ _ _) as [[[p|]|e] fs]; cbn [fst snd] in *.
        + destruct (falsy p || _).
          * unfold I in *. cbn [snd files set_files]. congruence.
          * specialize (Hpath p eq_refl). subst p. unfold I in *.
            rewrite generate_delivery_frame by done.
            cbn [files set_files]. congruence.
        + unfold I in *. cbn [snd files set_files]. congruence.
        + unfold I in *. cbn [snd files set_files]. congruence. }
    by apply Hgen.
  - apply (rs_generate settings same_voices); by intros.
Qed.

Lemma bind_ok_inv {A B} (m : M A) (f : A -> M B) w b w' :
  (m ≫= f) w = (Ok b, w') -> exists a w1, m w = (Ok a, w1) /\ f a w1 = (Ok b, w').
Proof.
  unfold mbind, M_bind. destruct (m w) as [[a|e] w1]; [|done]. by exists a, w1.
Qed.

(** What the response of [generate] carries. *)
Lemma generate_response unique_id payload w response w' :
  generate settings unique_id payload w = (Ok response, w') ->
  is_absolute unique_id = false ->
  GenerateResponse.audio_path response = final_name unique_id /\
  GenerateResponse.audio_url response = "" /\
  exists voice,
    _voices w !! default (Settings.default_voice_id settings) (GenerateRequest.voice_id payload)
    = Some voice /\
    GenerateResponse.voice_id response = Voice.id voice.
Proof.
  intros Hrun Hid. revert Hrun. rewrite generate_unfold. cbn zeta.
  destruct (_ || _); [done|].
  intros (voice & w1 & Hvoice & Hrun)%bind_ok_inv.
  apply bind_ok_inv in Hrun as (voice_path & w2 & _ & Hrun).
  apply bind_ok_inv in Hrun as ([] & w3 & _ & Hrun).
  apply bind_ok_inv in Hrun as (m & w4 & _ & Hrun).
  destruct m as [model|]; [|done].
  rewrite synthesis_run in Hrun.
  destruct (infer _ _ _ _ _) as [[[p|]|e] fs]; cbn [fst snd] in Hrun; try done.
  destruct (falsy p || _); [done|].
  unfold generate_delivery in Hrun. cbn zeta in Hrun.
  fold (final_output settings unique_id) in Hrun.
  rewrite final_output_relative in Hrun by done.
  apply bind_ok_inv in Hrun as ([] & w5 & _ & Hrun).
  injection Hrun as <- <-.
  cbn [GenerateResponse.audio_path GenerateResponse.audio_url GenerateResponse.voice_id].
  split_and!; try done. exists voice. split; [|done].
  revert Hvoice. unfold call, modify, get_voice, gets, mbind, M_bind.
  cbn [_voices set_trace].
  destruct (_voices w !! _) as [v|]; [|done]. by intros [= -> _].
Qed.

(** X21. The route [POST /generate] answers with what [generate]
    produced under the mount of the output directory: when it returns,
    the path in the response is [output/] followed by the name of the
    final file, which is the token with the suffix [.wav], the URL is
    what [url_for] gives for that same name under the mount [output],
    and the voice is the one the registry holds under the identifier of
    the request, or under the default identifier when the request names
    none.  An exception of [generate] leaves the route as it is.  The
    token is not an absolute path. *)
Theorem generate_route url_for unique_id payload w :
  is_absolute unique_id = false ->
  (forall response w',
     Api.generate settings url_for unique_id payload w = (Ok response, w') ->
     GenerateResponse.audio_path response = "output/" +:+ unique_id +:+ ".wav" /\
     GenerateResponse.audio_url response = url_for "output" (unique_id +:+ ".wav") /\
     (exists voice,
        _voices w !! default (Settings.default_voice_id settings)
                       (GenerateRequest.voice_id payload) = Some voice /\
        GenerateResponse.voice_id response = Voice.id voice) /\
     w' = (generate settings unique_id payload w).2) /\
  (forall e w',
     generate settings unique_id payload w = (Raise e, w') ->
     Api.generate settings url_for unique_id payload w = (Raise e, w')).
Proof.
  intros Hid. split.
  - intros response w'. unfold Api.generate, mbind, M_bind, mret, M_ret.
    destruct (generate settings unique_id payload w) as [[inner|e] w1] eqn:Hrun; [|done].
    destruct (generate_response _ _ _ _ _ Hrun Hid) as (Hpath & _ & Hvoice).
    intros [= <- <-]. cbn [GenerateResponse.audio_path GenerateResponse.audio_url
                            GenerateResponse.voice_id snd].
    by rewrite Hpath.
  - intros e w' Hrun. unfold Api.generate, mbind, M_bind. by rewrite Hrun.
Qed.

(** X22. A voice cloned through [POST /clone-voice] is listed by
    [GET /voices]: when the route returns, the listing holds a voice
    with the identifier, the name and the path of the response, it is
    longer by one than the listing before, and the name of the response
    is the name given without the white space around it.  When
    [add_voice] raises, the route raises the same. *)
Theorem clone_voice_listed voice_name file w :
  (forall response w',
     Api.clone_voice settings voice_name file w = (Ok response, w') ->
     VoiceCloneResponse.name response = strip isspace voice_name /\
     VoiceCloneResponse.path response
     = VoiceCloneResponse.voice_id response +:+ "/" +:+ prompt_filename file /\
     exists before listing voice,
       Api.list_voices w = (Ok before, w) /\
       Api.list_voices w' = (Ok listing, w') /\
       voice ∈ VoiceListResponse.voices listing /\
       Voice.id voice = VoiceCloneResponse.voice_id response /\
       Voice.name voice = VoiceCloneResponse.name response /\
       Voice.path voice = VoiceCloneResponse.path response /\
       length (VoiceListResponse.voices listing)
       = S (length (VoiceListResponse.voices before))) /\
  (forall e w',
     add_voice settings file voice_name w = (Raise e, w') ->
     Api.clone_voice settings voice_name file w = (Raise e, w')).
Proof.
  split.
  - intros response w'. unfold Api.clone_voice, mbind, M_bind, mret, M_ret.
    destruct (add_voice settings file voice_name w) as [[voice|e] w1] eqn:Hrun; [|done].
    intros [= <- <-].
    destruct (add_voice_ok settings _ _ _ _ _ Hrun)
      as (slug & k & _ & _ & _ & (_ & Hfree & _) & Hid & Hname & Hpath & Hvoices & _).
    cbn [VoiceCloneResponse.name VoiceCloneResponse.path VoiceCloneResponse.voice_id].
    split_and!; [done|by rewrite Hid|].
    exists (VoiceListResponse.mk (values (_voices w))),
           (VoiceListResponse.mk (values (_voices w1))), voice.
    split_and!; try done.
    + cbn [VoiceListResponse.voices]. apply elem_of_values.
      exists (candidate slug k). by rewrite Hvoices, lookup_insert_eq.
    + cbn [VoiceListResponse.voices]. unfold values.
      rewrite !length_fmap, !length_map_to_list, Hvoices.
      by rewrite map_size_insert_None.
  - intros e w' Hrun. unfold Api.clone_voice, mbind, M_bind. by rewrite Hrun.
Qed.

(** X23. The health report reads and does not load: with [torch]
    importable, [GET /health] returns the status [ok] and leaves the
    world as it was, a model that is not loaded stays so; it reports
    whether a model is loaded, the device and the version recorded at
    the load, and as many voices as the registry holds; without CUDA
    it reports neither a device name nor a memory size.  After a load
    that succeeded on a service without a model, at the startup with
    [autoload_model] or later, it reports the model as loaded with the
    device and the version of the model that the constructor
    returned. *)
Theorem health_reads_only w :
  TTSServiceMore.import_torch = None ->
  (exists response,
     Api.health w = (Ok response, w) /\
     HealthResponse.status response = "ok" /\
     HealthModel.loaded (HealthResponse.model response) = bool_decide (is_Some (_model w)) /\
     HealthModel.device (HealthResponse.model response) = _device w /\
     HealthModel.version (HealthResponse.model response) = _model_version w /\
     HealthResponse.voices response = size (_voices w) /\
     (TTSServiceMore.cuda_is_available = false ->
      HealthGPU.available (HealthResponse.gpu response) = false /\
      HealthGPU.name (HealthResponse.gpu response) = None /\
      HealthGPU.memory_total_gb (HealthResponse.gpu response) = None)) /\
  (forall w1,
     _model w = None ->
     Api.lifespan settings true w = (Ok tt, w1) ->
     exists model response,
       IndexTTS2 (constructions (trace w)) settings = Ok model /\
       Api.health w1 = (Ok response, w1) /\
       HealthModel.loaded (HealthResponse.model response) = true /\
       HealthModel.device (HealthResponse.model response) = Eff.device model /\
       HealthModel.version (HealthResponse.model response) = Eff.model_version model) /\
  Api.lifespan settings false w = (Ok tt, w).
Proof.
  intros Htorch.
  assert (Hrun : forall w0,
            Api.health w0
            = (Ok (HealthResponse.mk "ok"
                     (HealthGPU.mk TTSServiceMore.cuda_is_available
                        (if TTSServiceMore.cuda_is_available
                         then Some TTSServiceMore.cuda_get_device_name else None)
                        TTSServiceMore.cuda_device_count
                        (match (if TTSServiceMore.cuda_is_available
                                then Some (inject_Z (Z.of_N TTSServiceMore.cuda_total_memory)
                                           / inject_Z (1024 ^ 3))%Q
                                else None) with
                         | Some m => if Qeq_bool m 0 then None else Some (TTSServiceMore.round2 m)
                         | None => None
                         end))
                     (HealthModel.mk (bool_decide (is_Some (_model w0)))
                        (_device w0) (_model_version w0))
                     (length (values (_voices w0)))), w0)).
  { intros w0. unfold Api.health, TTSServiceMore.health. by rewrite Htorch. }
  split_and!.
  - eexists. split; [apply Hrun|].
    cbn [HealthResponse.status HealthResponse.model HealthResponse.gpu
         HealthResponse.voices HealthModel.loaded HealthModel.device HealthModel.version
         HealthGPU.available HealthGPU.name HealthGPU.memory_total_gb].
    split_and!; try done.
    + unfold values. by rewrite length_fmap, length_map_to_list.
    + by intros ->.
  - intros w1 Hnone. unfold Api.lifespan.
    rewrite ensure_model_loaded_run, Hnone, load_model_run. cbn zeta.
    destruct (import_IndexTTS2 _); [done|].
    cbn [trace set_trace]. rewrite constructions_snoc. cbn [is_construct].
    rewrite Nat.add_0_r.
    destruct (IndexTTS2 _ _) as [model|]; [|done].
    intros [= <-]. eexists model, _. split; [done|]. split; [apply Hrun|].
    cbn [HealthResponse.model HealthModel.loaded HealthModel.device HealthModel.version
         _model _device _model_version set_model set_trace].
    by split_and!.
  - done.
Qed.

End Routes.
End ApiFacts.

(** ** The start of the application *)

Module StartupFacts.
Import PyStr PyStrFacts Paths Json Eff VoiceManager Audio TTSService Process FrameFacts.
Import RegistryFacts ServiceFacts.

Section Startup.
Context `{Platform} `{Synthesizer} `{AudioLib} `{TTSServiceMore.Torch} (settings : Settings.t).


End Startup.
End StartupFacts.

(** ** The download script *)

Module DownloadFacts.
Import PyStr PyStrFacts Paths Eff DownloadModels.

#[local] Existing Instances D_ret D_bind.

Lemma replace_char_no_old old new s :
  new <> old -> all_chars (fun c => negb (is_char old c)) (replace_char old new s) = true.
Proof.
  intros Hne. induction s as [|c s IH]; [done|].
  cbn [replace_char all_chars]. rewrite IH, andb_true_r.
  unfold is_char. destruct (decide (c = old)) as [->|Hc]; by rewrite decide_False.
Qed.

Section Script.
Context `{Hubs}.

Lemma download_each_log cache_dir repos log :
  exists more, (download_each cache_dir repos log).2 = (log ++ more)%list /\
    Forall (fun d => match d with HfSnapshot _ _ _ _ => True | MsSnapshot _ _ _ => False end)
      more /\
    ((forall repo local_dir cache rev, snapshot_download repo local_dir cache rev = None) ->
     (download_each cache_dir repos log).1 = Ok tt).
Proof.
  revert log. induction repos as [|repo repos IH]; intros log.
  - exists []. by rewrite app_nil_r.
  - cbn [download_each]. unfold mbind, D_bind, _download_hf.
    destruct (snapshot_download _ _ _ _) eqn:Hdl.
    + eexists [_]. split_and!; [done|by repeat constructor|].
      intros Hall. by rewrite Hall in Hdl.
    + destruct (IH (log ++ [HfSnapshot repo
                              (joinpath cache_dir (replace_char "/" "_" repo))
                              cache_dir None])%list) as (more & -> & Hmore & Hok).
      eexists (_ :: more). rewrite <- List.app_assoc. split_and!; [done|by constructor|done].
Qed.

(** [main] by the outcome of its first download. *)
Lemma main_run args log :
  let cache_dir := joinpath (model_dir args) "hf_cache" in
  let log1 := (log ++ [HfSnapshot (repo_id args) (model_dir args) cache_dir
                         (revision args)])%list in
  main args log
  = match snapshot_download (repo_id args) (model_dir args) cache_dir (revision args) with
    | Some exc => (Raise exc, log1)
    | None =>
        match (if download_auxiliary args
               then download_each cache_dir auxiliaries else mret tt) log1 with
        | (Ok _, log2) =>
            (if negb (skip_modelscope args)
             then _download_modelscope "IndexTeam/IndexTTS-2" (model_dir args)
             else mret tt) log2
        | (Raise e, log2) => (Raise e, log2)
        end
    end.
Proof.
  cbn zeta. unfold main. cbn zeta. unfold mbind, D_bind. unfold _download_hf at 1.
  by destruct (snapshot_download _ _ _ _).
Qed.

(** X25. The download script asks for the checkpoints first and stops at
    the first failure: whatever happens, the first download it asks for
    is the one of the checkpoint repository into the model directory,
    with the cache [hf_cache] below it; when that download fails the
    script raises its exception and asks for nothing else.  A
    ModelScope library that is not installed is not an error: then, as
    with [skip_modelscope], the script asks ModelScope for nothing, and
    it returns when the downloads from the other hub succeed.  The
    directory of an auxiliary repository is named by the repository
    with every slash replaced, so its name has no slash. *)
Theorem download_stops_at_failure args log :
  let cache_dir := joinpath (model_dir args) "hf_cache" in
  let first := HfSnapshot (repo_id args) (model_dir args) cache_dir (revision args) in
  (exists more, (main args log).2 = (log ++ first :: more)%list) /\
  (forall exc,
     snapshot_download (repo_id args) (model_dir args) cache_dir (revision args) = Some exc ->
     main args log = (Raise exc, (log ++ [first])%list)) /\
  (is_Some import_modelscope \/ skip_modelscope args = true ->
   exists more,
     (main args log).2 = (log ++ more)%list /\
     Forall (fun d => match d with
                      | HfSnapshot _ _ _ _ => True
                      | MsSnapshot _ _ _ => False
                      end) more /\
     ((forall repo local_dir cache rev, snapshot_download repo local_dir cache rev = None) ->
      (main args log).1 = Ok tt)) /\
  (forall repo, all_chars (fun c => negb (is_char slash c)) (replace_char "/" "_" repo) = true).
Proof.
  cbn zeta. rewrite main_run. cbn zeta.
  set (first := HfSnapshot (repo_id args) (model_dir args)
                  (joinpath (model_dir args) "hf_cache") (revision args)).
  set (log1 := (log ++ [first])%list).
  set (aux := if download_auxiliary args
              then download_each (joinpath (model_dir args) "hf_cache") auxiliaries
              else mret tt).
  assert (Haux : exists more,
            (aux log1).2 = (log1 ++ more)%list /\
            Forall (fun d => match d with
                             | HfSnapshot _ _ _ _ => True
                             | MsSnapshot _ _ _ => False
                             end) more /\
            ((forall repo local_dir cache rev,
                snapshot_download repo local_dir cache rev = None) ->
             (aux log1).1 = Ok tt)).
  { unfold aux. destruct (download_auxiliary args); [apply download_each_log|].
    exists []. by rewrite app_nil_r. }
  destruct Haux as (more & Hlog & Hmore & Hok).
  split_and!.
  - destruct (snapshot_download _ _ _ _); [by exists []|].
    destruct (aux log1) as [[[]|e] log2]; cbn [fst snd] in *; subst log2.
    + destruct (negb _).
      * unfold _download_modelscope. destruct import_modelscope.
        -- exists more. unfold log1. by rewrite <- List.app_assoc.
        -- destruct (ms_snapshot_download _ _ _); cbn [snd]; unfold log1;
             rewrite <- !List.app_assoc; by eexists.
      * exists more. unfold log1. by rewrite <- List.app_assoc.
    + exists more. unfold log1. by rewrite <- List.app_assoc.
  - by intros exc ->.
  - intros Hskip.
    destruct (snapshot_download _ _ _ _) eqn:Hfirst.
    { exists [first]. split_and!; [done|by repeat constructor|].
      intros Hall. by rewrite Hall in Hfirst. }
    destruct (aux log1) as [[[]|e] log2]; cbn [fst snd] in *; subst log2.
    + assert (Hms : (if negb (skip_modelscope args)
                     then _download_modelscope "IndexTeam/IndexTTS-2" (model_dir args)
                     else mret tt) (log1 ++ more)%list = (Ok tt, (log1 ++ more)%list)).
      { destruct Hskip as [[msg Hmsg]| ->]; [|done].
        destruct (negb _); [|done]. unfold _download_modelscope. by rewrite Hmsg. }
      rewrite Hms. exists (first :: more).
      unfold log1. rewrite <- List.app_assoc. split_and!; [done|by constructor|done].
    + exists (first :: more).
      unfold log1. rewrite <- List.app_assoc. split_and!; [done|by constructor|done].
  - intros repo. by apply replace_char_no_old.
Qed.

End Script.
End DownloadFacts.

(** ** The slugger on its own results *)

Module SlugMore.
Import PyStr Clock Slug SlugShape Eff VoiceManager PyStrFacts SlugFacts RegistryFacts.

Lemma outside_dash : outside dash = true.
Proof. done. Qed.

Lemma is_char_true d c : is_char d c = true -> c = d.
Proof. unfold is_char. by case_decide. Qed.

Lemma scan_single_dashes b s : single_dashes b (sub_scan "-" b s) = true.
Proof.
  revert b. induction s as [|c s IH]; intros b; [done|].
  cbn [sub_scan]. unfold outside. destruct (is_slug_char c) eqn:Hc; cbn [negb].
  - cbn [single_dashes]. by rewrite Hc.
  - destruct b; [apply IH|].
    rewrite app_cons, app_empty_l. cbn [single_dashes].
    by rewrite (IH true).
Qed.

Lemma single_dashes_scan b s : single_dashes b s = true -> sub_scan "-" b s = s.
Proof.
  revert b. induction s as [|c s IH]; intros b; [done|].
  cbn [single_dashes sub_scan]. unfold outside.
  destruct (is_slug_char c) eqn:Hc; cbn [negb].
  - intros Hs. by rewrite (IH false).
  - intros [[Hd Hb%negb_true_iff]%andb_prop Hs]%andb_prop. subst b.
    apply is_char_true in Hd. subst c.
    by rewrite (IH true), app_cons, app_empty_l.
Qed.

Lemma single_dashes_weaken b s : single_dashes b s = true -> single_dashes false s = true.
Proof.
  destruct s as [|c s]; [done|]. cbn [single_dashes].
  destruct (is_slug_char c); [done|].
  intros [[Hd _]%andb_prop Hs]%andb_prop. by rewrite Hd, Hs.
Qed.

Lemma single_dashes_tail b c s :
  single_dashes b (String c s) = true -> single_dashes false s = true.
Proof.
  cbn [single_dashes]. destruct (is_slug_char c); [done|].
  intros [_ Hs]%andb_prop. by apply (single_dashes_weaken true).
Qed.

Lemma single_dashes_lstrip p b s :
  single_dashes b s = true -> single_dashes false (lstrip p s) = true.
Proof.
  revert b. induction s as [|c s IH]; intros b Hs; [done|].
  cbn [lstrip]. destruct (p c).
  - apply (IH false). by eapply single_dashes_tail.
  - by eapply single_dashes_weaken.
Qed.

Lemma single_dashes_rstrip p b s :
  single_dashes b s = true -> single_dashes b (rstrip p s) = true.
Proof.
  revert b. induction s as [|c s IH]; intros b; [done|].
  cbn [rstrip single_dashes].
  destruct (is_slug_char c) eqn:Hc.
  - intros Hs%(IH false). destruct (rstrip p s) as [|c' r].
    + destruct (p c); [done|]. cbn [single_dashes]. by rewrite Hc.
    + cbn [single_dashes] in *. by rewrite Hc.
  - intros [Hd Hs%(IH true)]%andb_prop. destruct (rstrip p s) as [|c' r].
    + destruct (p c); [done|]. cbn [single_dashes]. by rewrite Hc, Hd.
    + cbn [single_dashes] in *. by rewrite Hc, Hd.
Qed.

Lemma single_dashes_alphabet b s :
  single_dashes b s = true -> all_chars slug_alphabet s = true.
Proof.
  revert b. induction s as [|c s IH]; intros b; [done|].
  cbn [single_dashes all_chars]. unfold slug_alphabet at 1.
  destruct (is_slug_char c); cbn [orb].
  - apply IH.
  - intros [[-> _]%andb_prop Hs]%andb_prop. by apply (IH true).
Qed.

Lemma digits_single_dashes b s :
  all_chars is_digit s = true -> single_dashes b s = true.
Proof.
  revert b. induction s as [|c s IH]; intros b; [done|].
  cbn [all_chars single_dashes]. intros [Hc Hs]%andb_prop.
  unfold is_slug_char. unfold is_digit in Hc. rewrite Hc, orb_true_r. by apply IH.
Qed.

Lemma lower_char_slug c : slug_alphabet c = true -> lower_char c = c.
Proof.
  unfold slug_alphabet, is_slug_char, is_char, lower_char, between, dash, code.
  destruct c as [[] [] [] [] [] [] [] []]; by vm_compute.
Qed.

Lemma lower_slug s : all_chars slug_alphabet s = true -> lower s = s.
Proof.
  induction s as [|c s IH]; [done|]. cbn [all_chars lower].
  intros [Hc Hs]%andb_prop. by rewrite lower_char_slug, IH.
Qed.

Lemma lower_char_idemp c : lower_char (lower_char c) = lower_char c.
Proof.
  unfold lower_char, between, code.
  destruct c as [[] [] [] [] [] [] [] []]; by vm_compute.
Qed.

Lemma lower_idemp s : lower (lower s) = lower s.
Proof.
  induction s as [|c s IH]; [done|]. cbn [lower]. by rewrite lower_char_idemp, IH.
Qed.

Lemma rstrip_fixed p s :
  (forall c, last_char s = Some c -> p c = false) -> rstrip p s = s.
Proof.
  induction s as [|c s IH]; [done|]. intros Hlast. cbn [rstrip].
  destruct s as [|c' s'].
  - cbn [rstrip]. by rewrite (Hlast c).
  - rewrite IH; [done|]. intros c0 Hc0. by apply Hlast.
Qed.

Lemma strip_fixed p s :
  (forall c r, s = String c r -> p c = false) ->
  (forall c, last_char s = Some c -> p c = false) ->
  strip p s = s.
Proof.
  intros Hhead Hlast. unfold strip.
  assert (lstrip p s = s) as ->.
  { destruct s as [|c r]; [done|]. cbn [lstrip]. by rewrite (Hhead c r). }
  by apply rstrip_fixed.
Qed.

Lemma last_char_app s t : t <> "" -> last_char (s +:+ t) = last_char t.
Proof.
  intros Ht. induction s as [|c s IH]; [done|].
  rewrite app_cons. cbn [last_char]. rewrite IH.
  destruct (s +:+ t) eqn:Hst; [|done].
  destruct s; [by rewrite app_empty_l in Hst|by rewrite app_cons in Hst].
Qed.

Lemma last_char_all p s c :
  all_chars p s = true -> last_char s = Some c -> p c = true.
Proof.
  induction s as [|c' s IH]; [done|]. cbn [all_chars last_char].
  intros [Hc Hs]%andb_prop. destruct s as [|c'' s'].
  - by intros [= <-].
  - by apply IH.
Qed.

Lemma digits_nonempty width n : 0 < width -> digits width n <> "".
Proof.
  intros Hw. unfold digits, zfill.
  destruct (pretty n) as [|c r] eqn:Hp.
  - cbn [String.length]. rewrite Nat.sub_0_r. by destruct width; [lia|].
  - intros Hempty. apply (f_equal String.length) in Hempty.
    rewrite length_app in Hempty. cbn [String.length] in Hempty. lia.
Qed.

Lemma strftime_compact_last d c :
  last_char (strftime_compact d) = Some c -> is_digit c = true.
Proof. apply last_char_all, strftime_compact_digits. Qed.

Lemma strftime_compact_nonempty d : strftime_compact d <> "".
Proof.
  unfold strftime_compact. intros Hempty.
  apply (f_equal String.length) in Hempty. rewrite !length_app in Hempty.
  pose proof (digits_nonempty 2 (second d)) as Hsec.
  destruct (digits 2 (second d)); [by apply Hsec; [lia|]|].
  cbn [String.length] in Hempty. lia.
Qed.

Lemma digit_not_dash c : is_digit c = true -> is_char dash c = false.
Proof.
  unfold is_digit, is_char, between, dash, code.
  destruct c as [[] [] [] [] [] [] [] []]; by vm_compute.
Qed.

(** What the slugger returns is a text that the pattern, the trimming
    and the lower-casing leave alone. *)
Lemma spec_slugify_canonical now value :
  let s := spec_slugify now value in
  s <> "" /\ single_dashes false s = true /\
  (forall c r, s = String c r -> is_char dash c = false) /\
  (forall c, last_char s = Some c -> is_char dash c = false).
Proof.
  cbn zeta. unfold spec_slugify.
  destruct (spec_slug value) as [|c0 r0] eqn:Hslug.
  - split_and!.
    + by rewrite app_cons.
    + rewrite !app_cons, app_empty_l. cbn [single_dashes].
      change (is_slug_char "v") with true. change (is_slug_char "o") with true.
      change (is_slug_char "i") with true. change (is_slug_char "c") with true.
      change (is_slug_char "e") with true. change (is_slug_char "-") with false.
      cbn [negb andb]. change (is_char dash "-") with true. cbn [andb].
      apply digits_single_dashes, strftime_compact_digits.
    + rewrite app_cons. by intros c r [= <- _].
    + intros c. rewrite last_char_app by apply strftime_compact_nonempty.
      intros Hc%strftime_compact_last. by apply digit_not_dash.
  - rewrite <- Hslug. rewrite spec_slug_scan. split_and!.
    + rewrite <- spec_slug_scan. by rewrite Hslug.
    + unfold strip. apply single_dashes_rstrip, (single_dashes_lstrip _ false).
      apply scan_single_dashes.
    + intros c r. apply strip_head.
    + intros c. apply strip_last.
Qed.

Section Slugger.
Context `{Platform}.

(** X26. The slugger leaves its own results alone, and does not see the
    case of letters: a text that [_slugify] has returned, the fallback
    included, is returned as it is when it is slugged again, without a
    reading of the clock; and a name and its lower-case form are
    slugged alike.  So two names that differ in case only, or a name
    and the identifier made from it, ask for the same identifier. *)
Theorem slugify_fixed_point value w slug w1 :
  _slugify value w = (Ok slug, w1) ->
  (forall w2, _slugify slug w2 = (Ok slug, w2)) /\
  _slugify (lower value) w = (Ok slug, w1) /\
  _slugify (lower slug) w = (Ok slug, w).
Proof.
  intros Hrun.
  destruct (slugify_run value w) as (slug0 & w0 & Hrun0 & Hspec & _).
  rewrite Hrun in Hrun0. injection Hrun0 as <- <-.
  destruct (spec_slugify_canonical (clock (ticks w)) value) as (Hne & Hsingle & Hhead & Hlast).
  rewrite <- Hspec in Hne, Hsingle, Hhead, Hlast. clear Hspec.
  assert (Hlower : lower slug = slug).
  { by apply lower_slug, (single_dashes_alphabet false). }
  assert (Hfixed : forall w2, _slugify slug w2 = (Ok slug, w2)).
  { intros w2. unfold _slugify, _SLUGIFY_RE_sub.
    rewrite Hlower, (single_dashes_scan false) by done.
    rewrite strip_fixed by done.
    by rewrite ((proj2 (falsy_false slug)) Hne). }
  split_and!.
  - done.
  - rewrite <- Hrun. unfold _slugify. by rewrite lower_idemp.
  - rewrite Hlower. apply Hfixed.
Qed.

End Slugger.
End SlugMore.

(** ** The further properties on the stubs *)

Module MoreWitnesses.
Import PyStr Clock Slug Paths Json Eff VoiceManager Audio TTSService Process Fixture Stubs.

#[local] Existing Instances Fixture.platform Fixture.synthesizer Fixture.audio Stubs.torch.

(** [register_voice_replaces] on the default voice of the seeded
    registry, registered again under another name. *)
Lemma register_voice_replaces_witness :
  exists voice w',
    register_voice Fixture.settings "default" "Again"
      "/tmp/voices/default/sample_prompt.wav" seeded = (Ok voice, w') /\
    get_voice Fixture.settings (Some "default") w' = (Ok voice, w') /\
    Voice.name voice = "Again" /\
    size (_voices w') = size (_voices seeded).
Proof.
  destruct (register_voice Fixture.settings "default" "Again"
              "/tmp/voices/default/sample_prompt.wav" seeded)
    as [[voice|e] w'] eqn:Hrun; [|by vm_compute in Hrun].
  destruct (RegistryMore.register_voice_replaces Fixture.settings _ _ _ _ _ _ Hrun)
    as (Hget & _ & _ & Hname & _ & Hsize & _).
  exists voice, w'. split_and!; [done|exact Hget|exact Hname|].
  apply Hsize. by vm_compute; eexists.
Defined.

(** [register_voice_outside] on a file of the output directory. *)
Lemma register_voice_outside_witness :
  "/tmp/output/a.wav" <> Settings.voices_dir Fixture.settings /\
  String.prefix (Settings.voices_dir Fixture.settings +:+ "/") "/tmp/output/a.wav" = false /\
  register_voice Fixture.settings "a" "A" "/tmp/output/a.wav" seeded
  = (Raise (ValueError "is not in the subpath of"), seeded).
Proof.
  assert (Hne : "/tmp/output/a.wav" <> Settings.voices_dir Fixture.settings) by done.
  split_and!; [exact Hne|reflexivity|].
  exact (RegistryMore.register_voice_outside Fixture.settings "a" "A" "/tmp/output/a.wav"
           seeded Hne eq_refl).
Defined.

(** [add_voice_adds_one] on an upload to the seeded registry. *)
Lemma add_voice_adds_one_witness :
  exists voice w',
    add_voice Fixture.settings Fixture.upload " New Voice " seeded = (Ok voice, w') /\
    size (_voices w') = 2 /\
    Voice.name voice = "New Voice".
Proof.
  destruct (add_voice Fixture.settings Fixture.upload " New Voice " seeded)
    as [[voice|e] w'] eqn:Hrun; [|by vm_compute in Hrun].
  destruct (RegistryMore.add_voice_adds_one Fixture.settings _ _ _ _ _ Hrun)
    as (_ & _ & _ & Hsize & Hname & _).
  exists voice, w'. split_and!; [done|exact Hsize|exact Hname].
Defined.

(** [add_voice_stores_upload] on the same upload. *)
Lemma add_voice_stores_upload_witness :
  exists voice w',
    add_voice Fixture.settings Fixture.upload "New Voice" seeded = (Ok voice, w') /\
    files w' !! "/tmp/voices/new-voice/prompt.wav" = Some (Raw "RIFFdata").
Proof.
  destruct (add_voice Fixture.settings Fixture.upload "New Voice" seeded)
    as [[voice|e] w'] eqn:Hrun; [|by vm_compute in Hrun].
  assert (Htarget : joinpath (Settings.voices_dir Fixture.settings) (Voice.path voice)
                    = "/tmp/voices/new-voice/prompt.wav").
  { vm_compute in Hrun. by injection Hrun as <- <-. }
  destruct (RegistryMore.add_voice_stores_upload Fixture.settings _ _ _ _ _ Hrun)
    as (_ & _ & Hfile & _).
  - by rewrite Htarget.
  - by rewrite Htarget.
  - exists voice, w'. split; [done|]. by rewrite <- Htarget.
Defined.

(** [add_voice_id_alphabet] on a name of capitals, spaces and marks. *)
Lemma add_voice_id_alphabet_witness :
  exists voice w',
    add_voice Fixture.settings Fixture.upload "  ../Ma Voix!.WAV " seeded = (Ok voice, w') /\
    Voice.id voice = "ma-voix-wav" /\
    all_chars slug_alphabet (Voice.id voice) = true.
Proof.
  destruct (add_voice Fixture.settings Fixture.upload "  ../Ma Voix!.WAV " seeded)
    as [[voice|e] w'] eqn:Hrun; [|by vm_compute in Hrun].
  destruct (NamingFacts.add_voice_id_alphabet Fixture.settings _ _ _ _ _ Hrun)
    as (_ & Halpha & _).
  exists voice, w'. split_and!; [done| |exact Halpha].
  vm_compute in Hrun. by injection Hrun as <- <-.
Defined.






(** [list_voices_get_voice] on the seeded registry. *)
Lemma list_voices_get_voice_witness :
  exists listed,
    list_voices seeded = (Ok listed, seeded) /\ length listed = 1.
Proof.
  destruct (PersistenceFacts.list_voices_get_voice Fixture.settings seeded)
    as (listed & Hrun & Hlen & _).
  - apply (FrameFacts.reachable_consistent Fixture.settings), reach_init.
  - exists listed. split; [exact Hrun|]. rewrite Hlen. by vm_compute.
Defined.



(** [generate_moves_raw] on a request that leaves speed and pitch at
    their defaults. *)
Lemma generate_moves_raw_witness :
  exists response w',
    generate Fixture.settings Fixture.token plain_request loaded = (Ok response, w') /\
    GenerateResponse.audio_path response = final_name Fixture.token /\
    files w' !! final_output Fixture.settings Fixture.token = Some (Raw "RIFF") /\
    files w' !! raw_output Fixture.settings Fixture.token = None.
Proof.
  destruct (_voices loaded !! "default") as [voice|] eqn:Hvoice; [|by vm_compute in Hvoice].
  destruct (_model loaded) as [model|] eqn:Hmodel; [|by vm_compute in Hmodel].
  destruct (GenerateFacts.generate_moves_raw Fixture.settings Fixture.token plain_request
              loaded voice
              (set_trace (fun t => (t ++ [CallAbsoluteVoicePath voice])%list)
                 (set_trace (fun t => (t ++ [CallGetVoice None])%list) loaded))
              model (raw_output Fixture.settings Fixture.token) (Raw "RIFF"))
    as (w' & Hrun & Hfinal & Hraw & _).
  - reflexivity.
  - exact Hvoice.
  - vm_compute in Hvoice. injection Hvoice as <-. by vm_compute; eexists.
  - rewrite ServiceFacts.ensure_model_loaded_run. cbn [_model set_trace]. by rewrite Hmodel.
  - exact Hmodel.
  - reflexivity.
  - reflexivity.
  - reflexivity.
  - done.
  - cbn [fst snd infer Fixture.synthesizer]. apply lookup_insert_eq.
  - eexists _, w'. split_and!; [exact Hrun|reflexivity|exact Hfinal|].
    apply Hraw. done.
Defined.

(** [generate_touches_outputs] on the request of the tests and the
    prompt of the default voice. *)
Lemma generate_touches_outputs_witness :
  let w' := (generate Fixture.settings Fixture.token Fixture.request seeded).2 in
  files w' !! "/tmp/voices/default/sample_prompt.wav" = Some (Raw "RIFFdata") /\
  _voices w' = _voices seeded.
Proof.
  cbn zeta.
  destruct (ApiFacts.generate_touches_outputs Fixture.settings Fixture.token
              Fixture.request seeded "/tmp/voices/default/sample_prompt.wav")
    as [Hfile Hvoices].
  - intros model prompt text output_path fs q Hq. cbn. by apply lookup_insert_ne.
  - intros model prompt text output_path fs generated_path. cbn. by intros [= <-].
  - done.
  - done.
  - split; [|exact Hvoices]. by rewrite Hfile.
Defined.

(** [generate_route] on the request of the tests. *)
Lemma generate_route_witness :
  exists response w',
    Api.generate Fixture.settings Stubs.url_for Fixture.token Fixture.request seeded
    = (Ok response, w') /\
    GenerateResponse.audio_path response = "output/0123456789abcdef0123456789abcdef.wav" /\
    GenerateResponse.audio_url response
    = "http://testserver/output/0123456789abcdef0123456789abcdef.wav".
Proof.
  destruct (Api.generate Fixture.settings Stubs.url_for Fixture.token Fixture.request seeded)
    as [[response|e] w'] eqn:Hrun; [|by vm_compute in Hrun].
  destruct (proj1 (ApiFacts.generate_route Fixture.settings Stubs.url_for Fixture.token
                     Fixture.request seeded eq_refl) response w' Hrun)
    as (Hpath & Hurl & _).
  exists response, w'. split_and!; [done|exact Hpath|exact Hurl].
Defined.

(** [health_reads_only] on the seeded service before a load. *)
Lemma health_reads_only_witness :
  exists response,
    Api.health seeded = (Ok response, seeded) /\
    HealthResponse.status response = "ok" /\
    HealthModel.loaded (HealthResponse.model response) = false /\
    HealthResponse.voices response = 1.
Proof.
  destruct (proj1 (@ApiFacts.health_reads_only Fixture.synthesizer Stubs.torch
                     Fixture.settings seeded eq_refl))
    as (response & Hrun & Hstatus & Hloaded & _ & _ & Hvoices & _).
  exists response. split_and!; [exact Hrun|exact Hstatus|by rewrite Hloaded|by rewrite Hvoices].
Defined.

(** [slugify_fixed_point] on a name and on a name that falls back to
    the clock. *)
Lemma slugify_fixed_point_witness :
  _slugify "Ma Voix" seeded = (Ok "ma-voix", seeded) /\
  _slugify "ma-voix" seeded = (Ok "ma-voix", seeded) /\
  _slugify "MA VOIX" seeded = (Ok "ma-voix", seeded).
Proof.
  assert (Hrun : _slugify "MA VOIX" seeded = (Ok "ma-voix", seeded)) by reflexivity.
  destruct (SlugMore.slugify_fixed_point "MA VOIX" seeded "ma-voix" seeded Hrun)
    as (Hfixed & _ & _).
  split_and!; [reflexivity|apply Hfixed|exact Hrun].
Defined.


(** [prompt_filename_shape] on a file name with directories and two
    dots. *)
Lemma prompt_filename_shape_witness :
  suffix "../../etc/passwd.tar.gz" <> "" /\
  prompt_filename (UploadFile.mk (Some "../../etc/passwd.tar.gz") "RIFF") = "prompt.gz".
Proof.
  assert (Hsuffix : suffix "../../etc/passwd.tar.gz" <> "") by done.
  split; [exact Hsuffix|].
  by rewrite (proj2 (proj2 (proj2 NamingFacts.prompt_filename_shape)) _ _ Hsuffix).
Defined.

(** [load_corrupt_metadata] on a metadata file that is not a JSON
    document. *)
Lemma load_corrupt_metadata_witness :
  files corrupt !! Settings.metadata_path Fixture.settings = Some (Raw "{voices") /\
  __init__ Fixture.settings corrupt
  = (Raise JSONDecodeError, set_voices (fun _ => ∅) corrupt).
Proof.
  assert (Hfile : files corrupt !! Settings.metadata_path Fixture.settings
                  = Some (Raw "{voices")) by reflexivity.
  split; [exact Hfile|].
  exact (proj2 (proj2 (proj1 (PersistenceFacts.load_corrupt_metadata Fixture.settings)
                         corrupt "{voices" Hfile))).
Defined.

(** [load_reads_disk_only] on the seeded disk, with and without the
    registry in memory. *)
Lemma load_reads_disk_only_witness :
  files (set_voices (fun _ => ∅) seeded) = files seeded /\
  (_load Fixture.settings (set_voices (fun _ => ∅) seeded)).1
  = (_load Fixture.settings seeded).1.
Proof.
  assert (Hfiles : files (set_voices (fun _ => ∅) seeded) = files seeded) by reflexivity.
  split; [exact Hfiles|].
  exact (proj1 (proj2 (proj2 (proj2 (proj2
           (PersistenceFacts.load_reads_disk_only Fixture.settings seeded))))
           (set_voices (fun _ => ∅) seeded) Hfiles)).
Defined.

(** [apply_speed_and_pitch_edges] on a source that is not on the
    disk. *)
Lemma apply_speed_and_pitch_edges_witness :
  files seeded !! "/tmp/output/missing.wav" = None /\
  apply_speed_and_pitch "/tmp/output/missing.wav" "/tmp/output/out.wav" (12 # 10) 0 seeded
  = (Raise (FileNotFoundError "/tmp/output/missing.wav"), seeded).
Proof.
  assert (Hnone : files seeded !! "/tmp/output/missing.wav" = None) by reflexivity.
  split; [exact Hnone|].
  exact (proj1 (AudioFacts.apply_speed_and_pitch_edges "/tmp/output/missing.wav"
                  "/tmp/output/out.wav" (12 # 10) 0 seeded) Hnone).
Defined.


(** [clone_voice_listed] on an upload to the seeded registry. *)
Lemma clone_voice_listed_witness :
  exists response w' listing,
    Api.clone_voice Fixture.settings " New Voice " Fixture.upload seeded = (Ok response, w') /\
    VoiceCloneResponse.name response = "New Voice" /\
    Api.list_voices w' = (Ok listing, w') /\
    length (VoiceListResponse.voices listing) = 2.
Proof.
  destruct (Api.clone_voice Fixture.settings " New Voice " Fixture.upload seeded)
    as [[response|e] w'] eqn:Hrun; [|by vm_compute in Hrun].
  destruct (proj1 (ApiFacts.clone_voice_listed Fixture.settings " New Voice " Fixture.upload
                     seeded) response w' Hrun)
    as (Hname & _ & before & listing & voice & Hbefore & Hlist & _ & _ & _ & _ & Hlen).
  exists response, w', listing. split_and!; [done|exact Hname|exact Hlist|].
  rewrite Hlen. vm_compute in Hbefore. by injection Hbefore as <-.
Defined.

(** [download_stops_at_failure] with the default arguments on a machine
    without ModelScope. *)
Lemma download_stops_at_failure_witness :
  is_Some (DownloadModels.import_modelscope (Hubs := hubs)) /\
  (DownloadModels.main (H := hubs) DownloadModels.defaults []).1 = Ok tt /\
  Forall (fun d => match d with
                   | DownloadModels.HfSnapshot _ _ _ _ => True
                   | DownloadModels.MsSnapshot _ _ _ => False
                   end)
    (DownloadModels.main (H := hubs) DownloadModels.defaults []).2.
Proof.
  assert (Hms : is_Some (DownloadModels.import_modelscope (Hubs := hubs))) by (by eexists).
  destruct (DownloadFacts.download_stops_at_failure (H := hubs) DownloadModels.defaults [])
    as (_ & _ & Hquiet & _).
  destruct (Hquiet (or_introl Hms)) as (more & Hlog & Hhf & Hok).
  split_and!; [exact Hms|by apply Hok|].
  rewrite Hlog. exact Hhf.
Defined.

End MoreWitnesses.
